(** * twbot: the text, budget and relationship-store logic of twbot.go

    A shallow embedding of the parts of [twbot.go] that carry invariants:
    [truncate] (fitting a message and a link into a tweet), [stripText] and
    [getOriginalText] (the canonical text used to detect duplicates),
    [removeDuplicates] and [takeDifference] (the duplicate filter), and the
    relationship store ([updateFollowers], [updateFriends], [addFriend],
    [unfollowFriend], [isFollower], [getFriend], [followAll]).

    Go strings are byte strings: they are modelled by [string] (a list of
    8-bit [ascii]), and [len] is the byte count.  Go's [int] is the 64-bit
    signed integer: it is modelled by [Z] with the wrap-around written out. *)

From Stdlib Require Import ZArith Lia.
From Stdlib Require String Ascii.
From stdpp Require Import gmap strings list fin_maps pretty.

Local Open Scope Z_scope.

#[local] Set Warnings "-clear-no-such-hyp".

(** ** Go's 64-bit [int] *)

Module GoInt.

Definition min_int : Z := - 2 ^ 63.
Definition max_int : Z := 2 ^ 63 - 1.

(** Two's complement wrap-around of a mathematical integer. *)
Definition wrap (z : Z) : Z := (z + 2 ^ 63) mod 2 ^ 64 - 2 ^ 63.

Definition add (a b : Z) : Z := wrap (a + b).
Definition sub (a b : Z) : Z := wrap (a - b).

Definition in_range (z : Z) : Prop := min_int <= z <= max_int.

End GoInt.

(** ** Byte strings and the functions of package [strings] that are used *)

Definition error : Type := string.

(** [len(s)] as a Go [int]. *)
Definition len (s : string) : Z := Z.of_nat (String.length s).

(** [s[0:n]].  Go panics when the bound is negative or too large ([None]).
    The strings sliced in this file are used at their full length, so the
    upper bound is the length. *)
Definition slice_to (s : string) (n : Z) : option string :=
  if bool_decide (0 <= n <= len s)
  then Some (String.substring 0 (Z.to_nat n) s)
  else None.

(** [s[n:]] for [n <= len(s)]. *)
Fixpoint skip (n : nat) (s : string) : string :=
  match n, s with
  | O, _ => s
  | S n, String _ s => skip n s
  | S _, EmptyString => EmptyString
  end.

(** [cut s sep] splits [s] around the first occurrence of [sep]: what lies
    before it and what lies after it ([strings.Index] followed by the two
    slices). *)
Fixpoint cut (s sep : string) : option (string * string) :=
  if String.prefix sep s then Some (EmptyString, skip (String.length sep) s)
  else
    match s with
    | EmptyString => None
    | String c s' =>
        match cut s' sep with
        | Some (before, after) => Some (String c before, after)
        | None => None
        end
    end.

(** [strings.Contains(s, substr)]. *)
Definition Contains (s substr : string) : bool :=
  match cut s substr with Some _ => true | None => false end.

(** [strings.SplitN(s, sep, 2)], for the separators of this file, none of
    which is empty. *)
Definition SplitN2 (s sep : string) : list string :=
  match cut s sep with
  | Some (before, after) => [before; after]
  | None => [s]
  end.

(** [strconv.FormatInt(id, 10)]. *)
Definition FormatInt (id : Z) : string := pretty id.

(** ** Constants of twbot.go *)

Definition retweetTextTag : string := "RT @".
Definition retweetTextIndex : string := ": ".
Definition tweetTCOHTTPTag : string := "http://t.co".
Definition tweetTCOHTTPSTag : string := "https://t.co".
Definition tweetTCOTextIndex : string := " ".
Definition tweetTextMaxSize : Z := 140.
Definition tweetTruncatedTextMin : Z := 30.
Definition oneDayInNano : Z := 86400000000000.
Definition tcoLinksMaxLength : Z := 24.
(** [15 * time.Minute], in nanoseconds. *)
Definition fifteenMinutes : Z := 15 * (60 * 1000000000).

(** ** [truncate]

    [None] is the run-time panic of a slice expression out of range;
    [truncate_returns] below shows that it never happens. *)

Definition truncate (msg archiveURL : string) (urlMaxLength : Z) : option string :=
  let bytes := msg in
  let sep := "... " in
  let emptySep := " " in
  if bool_decide (urlMaxLength = 0) then
    if bool_decide (len bytes > tweetTextMaxSize) then
      bytes' ← slice_to bytes (GoInt.sub tweetTextMaxSize (len sep));
      sep' ← slice_to sep (GoInt.sub (len sep) 1);
      Some (bytes' +:+ sep')
    else Some bytes
  else if bool_decide (GoInt.add (GoInt.add (len bytes) (len emptySep)) urlMaxLength
                       <= tweetTextMaxSize) then
    Some (bytes +:+ emptySep +:+ archiveURL)
  else
    let left := GoInt.sub (GoInt.add (GoInt.add (len bytes) (len sep)) urlMaxLength)
                          tweetTextMaxSize in
    if bool_decide (GoInt.sub (len bytes) left >= tweetTruncatedTextMin) then
      bytes' ← slice_to bytes (GoInt.sub (len bytes) left);
      Some (bytes' +:+ sep +:+ archiveURL)
    else if bool_decide (urlMaxLength <= tweetTextMaxSize) then Some archiveURL
    else if bool_decide (len bytes <= tweetTextMaxSize) then Some bytes
    else
      bytes' ← slice_to bytes (GoInt.sub tweetTextMaxSize 1);
      Some bytes'.

(** The fixtures of the test file. *)
Definition string141 : string :=
  "Wrote water woman of heart it total other. By in entirely securing suitable graceful at families improved. Zealously few furniture repulsive.".
Definition string140 : string :=
  "Wrote water woman of heart it total other. By in entirely securing suitable graceful at families improved. Zealously few furniture repulsive".
Definition string42 : string := "Wrote water woman of heart it total other.".
Definition url140 : string :=
  "https://------------------------------------------" +:+
  "--------------------------------------------------" +:+
  "----------------------------------------".

(** ** [stripText] and [getOriginalText] *)

Definition stripText (text tostripped endSep : string) : string * bool :=
  if Contains text tostripped then
    let subtab := SplitN2 text tostripped in
    let temp := subtab !!! 0%nat in
    let temp :=
      if bool_decide (length subtab = 2%nat) then
        let subtab2 := SplitN2 (subtab !!! 1%nat) endSep in
        if bool_decide (length subtab2 = 2%nat) then temp +:+ subtab2 !!! 1%nat
        else temp
      else temp in
    (temp, true)
  else (text, false).

(** The [for] loop of [getOriginalText]; [None] when the fuel runs out. *)
Fixpoint stripLinks (fuel : nat) (stripped : string) : option string :=
  match fuel with
  | O => None
  | S fuel =>
      let '(stripped, stripped1) := stripText stripped tweetTCOHTTPTag tweetTCOTextIndex in
      let '(stripped, stripped2) := stripText stripped tweetTCOHTTPSTag tweetTCOTextIndex in
      if negb stripped1 && negb stripped2 then Some stripped
      else stripLinks fuel stripped
  end.

(** The result is Go's pair [(string, error)], [None] standing for [nil];
    the outer [option] is [None] only if the loop did not stop within
    [S (length text)] rounds, which [getOriginalText_returns] excludes. *)
Definition getOriginalText (text : string) : option (string * option error) :=
  let parsed : string + error :=
    if Contains text retweetTextTag then
      let tab := SplitN2 text retweetTextIndex in
      if bool_decide (length tab ≠ 2%nat)
      then inr ("[twitter] error parsing a tweet text: " +:+ text)
      else inl (tab !!! 1%nat)
    else inl text in
  match parsed with
  | inr err => Some (EmptyString, Some err)
  | inl text =>
      stripped ← stripLinks (S (String.length text)) text;
      Some (stripped, None)
  end.

(** The fixtures of [TestOriginalText]. *)
Definition rawtweet : string :=
  "Every year it's a new cool space! Looking forward to the cozy homey atmosphere of this one!   ".
Definition tweet1 : string := rawtweet +:+ "https://t.co/CebckjFwmZ".
Definition tweet2 : string := rawtweet +:+ "http://t.co/CebckjFwmZ".
Definition retweet1 : string := "RT @twitandrewking: " +:+ tweet1.
Definition retweet4 : string := "RT @twitandrewking: ".
Definition retweet5 : string := "RT @twitandrewking:".

(** ** The duplicate filter

    Of [anaconda.Tweet] the filter reads [Id] and [Text] only.  The functions
    return the surviving tweets and the lines they log; [debug] is the
    receiver's flag, which [print] tests. *)

Record Tweet : Type := { Id : Z; Text : string }.

#[global] Instance Tweet_eq_dec : EqDecision Tweet.
Proof. solve_decision. Defined.

Definition newline : string := String (Ascii.ascii_of_nat 10) EmptyString.

Definition print (debug : bool) (text : string) : list string :=
  if debug then [text] else [].

Definition logError (err : option error) : list string :=
  match err with Some e => [e] | None => [] end.

Fixpoint removeDuplicates_loop (debug : bool) (current : list Tweet)
    (temp : gset string) (stripped : list Tweet) (log : list string)
    : option (list Tweet * list string) :=
  match current with
  | [] => Some (stripped, log)
  | tweet :: current =>
      '(original, err) ← getOriginalText (Text tweet);
      let log := log ++ logError err in
      if bool_decide (original ∉ temp) then
        removeDuplicates_loop debug current ({[original]} ∪ temp) (stripped ++ [tweet]) log
      else
        removeDuplicates_loop debug current temp stripped
          (log ++ print debug ("[twitter] found a duplicate (id:" +:+ pretty (Id tweet)
                               +:+ "), text:" +:+ Text tweet +:+ newline))
  end.

Definition removeDuplicates (debug : bool) (current : list Tweet)
    : option (list Tweet * list string) :=
  removeDuplicates_loop debug current ∅ [] [].

(** The first loop of [takeDifference], over [previous]. *)
Fixpoint takeDifference_seen (previous : list Tweet)
    (addedByID : gset Z) (addedByText : gset string) (log : list string)
    : option (gset Z * gset string * list string) :=
  match previous with
  | [] => Some (addedByID, addedByText, log)
  | v :: previous =>
      let addedByID := {[Id v]} ∪ addedByID in
      '(original, err) ← getOriginalText (Text v);
      takeDifference_seen previous addedByID ({[original]} ∪ addedByText)
        (log ++ logError err)
  end.

(** The second loop of [takeDifference], over [current]. *)
Fixpoint takeDifference_loop (debug : bool) (current : list Tweet)
    (addedByID : gset Z) (addedByText : gset string)
    (diff : list Tweet) (log : list string)
    : option (list Tweet * list string) :=
  match current with
  | [] => Some (diff, log)
  | v :: current =>
      if bool_decide (Id v ∈ addedByID) then
        takeDifference_loop debug current addedByID addedByText diff
          (log ++ print debug ("[twitter] found a duplicate (same id) from database id:"
                               +:+ pretty (Id v) +:+ ", text:" +:+ Text v +:+ newline))
      else
        '(original, err) ← getOriginalText (Text v);
        let log := log ++ logError err in
        if bool_decide (original ∈ addedByText) then
          takeDifference_loop debug current addedByID addedByText diff
            (log ++ print debug
               ("[twitter] found a duplicate (same original text) from database id:"
                +:+ pretty (Id v) +:+ ", text:" +:+ Text v +:+ newline))
        else
          takeDifference_loop debug current ({[Id v]} ∪ addedByID)
            ({[original]} ∪ addedByText) (diff ++ [v]) log
  end.

Definition takeDifference (debug : bool) (previous current : list Tweet)
    : option (list Tweet * list string) :=
  '(addedByID, addedByText, log) ← takeDifference_seen previous ∅ ∅ [];
  takeDifference_loop debug current addedByID addedByText [] log.

(** The key under which the filter files a tweet: the string that
    [getOriginalText] returns, with or without an error. *)
Definition fingerprint (tweet : Tweet) : string :=
  match getOriginalText (Text tweet) with
  | Some (original, _) => original
  | None => EmptyString
  end.

(** The error that [getOriginalText] returns on the text of a tweet. *)
Definition parseError (tweet : Tweet) : option error :=
  match getOriginalText (Text tweet) with
  | Some (_, err) => err
  | None => None
  end.

(** The duplicate filter as the specification words it: on a normalization
    error the candidate's raw text is its fingerprint. *)
Definition spec_fingerprint (text : string) : option string :=
  '(original, err) ← getOriginalText text;
  Some (match err with Some _ => text | None => original end).

Fixpoint spec_removeDuplicates_loop (current : list Tweet)
    (temp : gset string) (stripped : list Tweet) : option (list Tweet) :=
  match current with
  | [] => Some stripped
  | tweet :: current =>
      key ← spec_fingerprint (Text tweet);
      if bool_decide (key ∉ temp) then
        spec_removeDuplicates_loop current ({[key]} ∪ temp) (stripped ++ [tweet])
      else spec_removeDuplicates_loop current temp stripped
  end.

Definition spec_removeDuplicates (current : list Tweet) : option (list Tweet) :=
  spec_removeDuplicates_loop current ∅ [].

(** ** The relationship store and the follow flow

    The bot's collaborators (the file system through [tojson], the clock,
    the remote client, the logger, [time.Sleep] and [freeze]) are outside the
    code.  Every call to one of them is recorded in a trace of events, and
    what the call returns is given by an environment [Env] as a function of
    the trace so far, so that an environment may answer each call as it
    likes.  The mutex of the bot is not modelled: one flow is run at a time. *)

Record twitterUser : Type := { Timestamp : Z; Follow : bool }.

(** [twitterUsers] is a struct with the single field [Ids], a map from the
    decimal identifier to the user.  The files are written by [tojson.Save]
    from such maps, so every key is bound to a user and no two keys share
    one. *)
Abbreviation twitterUsers := (gmap string twitterUser).

Record SleepPolicy : Type := {
  MaxRand : Z;
  MaybeSleepChance : Z;
  MaybeSleepTotalChance : Z;
  MaybeSleepMin : Z;
  MaybeSleepMax : Z }.

Record TwitterBot : Type := {
  followersPath : string;
  followers : twitterUsers;
  friendsPath : string;
  friends : twitterUsers;
  debug : bool }.

(** Of [anaconda.User] the code reads [Id] and [Name], for its log lines. *)
Record User : Type := { UserId : Z; Name : string }.

Inductive event : Type :=
| EvStat (path : string)
| EvSave (path : string) (users : twitterUsers)
| EvLoad (path : string)
| EvNow
| EvGetFollowersIdsAll
| EvGetFriendsIdsAll
| EvFollowUserId (id : Z)
| EvLog (line : string)
| EvSleep (nanoseconds : Z)
| EvFreezeSleep (maxRand : Z)
| EvFreezeMaybeSleep (chance totalChance min max : Z).

#[global] Instance twitterUser_eq_dec : EqDecision twitterUser.
Proof. solve_decision. Defined.

#[global] Instance event_eq_dec : EqDecision event.
Proof. solve_decision. Defined.

Record Env : Type := {
  (** [os.IsNotExist] of the error of [os.Stat(path)] *)
  statNotExist : list event → string → bool;
  (** the error of [tojson.Save(path, users)] *)
  saveResult : list event → string → twitterUsers → option error;
  (** [tojson.Load(path, users)] into an empty map: the map read, or the error *)
  loadResult : list event → string → twitterUsers + error;
  (** [time.Now().UnixNano()] *)
  nowUnixNano : list event → Z;
  (** the pages received from [GetFollowersIdsAll(nil)], each with its [Ids] *)
  followersIdsAll : list event → list (list Z);
  (** the pages received from [GetFriendsIdsAll(nil)] *)
  friendsIdsAll : list event → list (list Z);
  (** [FollowUserId(id, nil)] *)
  followUserId : list event → Z → User * option error }.

(** How a call ends: it returns, the process exits ([log.Fatalln]), or the
    goroutine panics. *)
Inductive outcome (A : Type) : Type :=
| Done (a : A)
| Fatal (line : string)
| Panic.
Arguments Done {A} a.
Arguments Fatal {A} line.
Arguments Panic {A}.

Record St : Type := { bot : TwitterBot; trace : list event }.

Definition M (A : Type) : Type := St → outcome A * St.

#[global] Instance M_ret : MRet M := λ A a st, (Done a, st).

#[global] Instance M_bind : MBind M := λ A B f m st,
  match m st with
  | (Done a, st') => f a st'
  | (Fatal line, st') => (Fatal line, st')
  | (Panic, st') => (Panic, st')
  end.

Definition emit (e : event) : M unit :=
  λ st, (Done tt, {| bot := bot st; trace := trace st ++ [e] |}).

Definition history : M (list event) := λ st, (Done (trace st), st).

Definition getBot : M TwitterBot := λ st, (Done (bot st), st).

Definition setFollowers (users : twitterUsers) : M unit :=
  λ st, (Done tt,
         {| bot := {| followersPath := followersPath (bot st);
                      followers := users;
                      friendsPath := friendsPath (bot st);
                      friends := friends (bot st);
                      debug := debug (bot st) |};
            trace := trace st |}).

Definition setFriends (users : twitterUsers) : M unit :=
  λ st, (Done tt,
         {| bot := {| followersPath := followersPath (bot st);
                      followers := followers (bot st);
                      friendsPath := friendsPath (bot st);
                      friends := users;
                      debug := debug (bot st) |};
            trace := trace st |}).

Definition panic {A : Type} : M A := λ st, (Panic, st).

Definition logPrintln (line : string) : M unit := emit (EvLog line).

Definition logFatalln {A : Type} (line : string) : M A :=
  λ st, (Fatal line, {| bot := bot st; trace := trace st ++ [EvLog line] |}).

Definition timeSleep (nanoseconds : Z) : M unit := emit (EvSleep nanoseconds).

Definition printDebug (text : string) : M unit :=
  t ← getBot;
  if debug t then logPrintln text else mret tt.

Definition controlledSleep (sleepPolicy : option SleepPolicy) : M unit :=
  t ← getBot;
  match sleepPolicy with
  | Some p =>
      if negb (debug t) then
        emit (EvFreezeSleep (MaxRand p));;
        emit (EvFreezeMaybeSleep (MaybeSleepChance p) (MaybeSleepTotalChance p)
                (MaybeSleepMin p) (MaybeSleepMax p))
      else mret tt
  | None => mret tt
  end.

Definition markUnfollowed (v : twitterUser) : twitterUser :=
  {| Timestamp := Timestamp v; Follow := false |}.

Definition markFollowed (v : twitterUser) : twitterUser :=
  {| Timestamp := Timestamp v; Follow := true |}.

Section Store.

Context (env : Env).

Definition osStatNotExist (path : string) : M bool :=
  h ← history; emit (EvStat path);; mret (statNotExist env h path).

Definition tojsonSave (path : string) (users : twitterUsers) : M (option error) :=
  h ← history; emit (EvSave path users);; mret (saveResult env h path users).

Definition tojsonLoad (path : string) : M (twitterUsers + error) :=
  h ← history; emit (EvLoad path);; mret (loadResult env h path).

Definition timeNowUnixNano : M Z :=
  h ← history; emit EvNow;; mret (nowUnixNano env h).

Definition GetFollowersIdsAll : M (list (list Z)) :=
  h ← history; emit EvGetFollowersIdsAll;; mret (followersIdsAll env h).

Definition GetFriendsIdsAll : M (list (list Z)) :=
  h ← history; emit EvGetFriendsIdsAll;; mret (friendsIdsAll env h).

Definition FollowUserId (id : Z) : M (User * option error) :=
  h ← history; emit (EvFollowUserId id);; mret (followUserId env h id).

(** The inner loop of [updateFollowers] and [updateFriends], over the
    [Ids] of one page. *)
Fixpoint reconcileIds (ids : list Z) (users : twitterUsers) : M twitterUsers :=
  match ids with
  | [] => mret users
  | id :: ids =>
      let strID := FormatInt id in
      match users !! strID with
      | Some user => reconcileIds ids (<[strID := markFollowed user]> users)
      | None =>
          now ← timeNowUnixNano;
          reconcileIds ids (<[strID := {| Timestamp := now; Follow := true |}]> users)
      end
  end.

(** The outer loop, over the pages received. *)
Fixpoint reconcilePages (pages : list (list Z)) (users : twitterUsers)
    : M twitterUsers :=
  match pages with
  | [] => mret users
  | v :: pages => users ← reconcileIds v users; reconcilePages pages users
  end.

(** The two loops of [updateFollowers] and [updateFriends] on a snapshot:
    every user is flagged as not followed, then the remote identifiers are
    flagged or inserted. *)
Definition reconcile (users : twitterUsers) (pages : list (list Z))
    : M twitterUsers :=
  reconcilePages pages (markUnfollowed <$> users).

(** Reconciling again and again, each time with what the remote side
    sends then. *)
Fixpoint reconcileMany (users : twitterUsers) (streams : list (list (list Z)))
    : M twitterUsers :=
  match streams with
  | [] => mret users
  | pages :: streams => users ← reconcile users pages; reconcileMany users streams
  end.

(** [updateFollowers] and [updateFriends] are the same text, up to the path,
    the remote call and the field assigned at the end. *)
Definition updateUsers (path : string) (fetch : M (list (list Z)))
    (assign : twitterUsers → M unit) : M (option error) :=
  let users : twitterUsers := ∅ in
  notExist ← osStatNotExist path;
  (if (notExist : bool) then tojsonSave path users;; mret tt else mret tt : M unit);;
  loaded ← tojsonLoad path;
  match loaded with
  | inr err => mret (Some err)
  | inl users =>
      pages ← fetch;
      users ← reconcile users pages;
      err ← tojsonSave path users;
      match err with
      | Some err => mret (Some err)
      | None => assign users;; mret None
      end
  end.

Definition updateFollowers : M (option error) :=
  t ← getBot; updateUsers (followersPath t) GetFollowersIdsAll setFollowers.

Definition updateFriends : M (option error) :=
  t ← getBot; updateUsers (friendsPath t) GetFriendsIdsAll setFriends.

(** [t.friends.Ids[key].Follow = false] dereferences the pointer found in
    the map: a nil pointer, and a panic, when the key is absent. *)
Definition unfollowFriend (id : Z) : M unit :=
  t ← getBot;
  match friends t !! FormatInt id with
  | None => panic
  | Some user =>
      setFriends (<[FormatInt id := markUnfollowed user]> (friends t));;
      t ← getBot;
      err ← tojsonSave (friendsPath t) (friends t);
      match err with
      | Some err => logFatalln err
      | None => mret tt
      end
  end.

Definition isFollower (id : Z) : M bool :=
  t ← getBot;
  mret (bool_decide (is_Some (followers t !! FormatInt id))).

(** The pair of a pointer to a copy and a flag is [Some] of the copy, or
    [None]. *)
Definition getFriend (id : Z) : M (option twitterUser) :=
  t ← getBot;
  match friends t !! FormatInt id with
  | Some user => mret (Some {| Timestamp := Timestamp user; Follow := Follow user |})
  | None => mret None
  end.

Definition addFriend (id : Z) : M unit :=
  t ← getBot;
  now ← timeNowUnixNano;
  setFriends (<[FormatInt id := {| Timestamp := now; Follow := true |}]> (friends t));;
  t ← getBot;
  err ← tojsonSave (friendsPath t) (friends t);
  match err with
  | Some err => logFatalln err
  | None => mret tt
  end.

Definition unableToFollowText : string :=
  "You are unable to follow more people at this time".

Definition checkUnableToFollowAtThisTime (err : option error) : M bool :=
  match err with
  | Some e =>
      if Contains e unableToFollowText then
        logPrintln ("unable to follow at this time, waiting 15min..., " +:+ e);;
        timeSleep fifteenMinutes;;
        mret true
      else mret false
  | None => mret false
  end.

Definition checkBotRestriction (err : option error) : M unit :=
  match err with
  | Some strErr =>
      (if Contains strErr "Invalid or expired token"
          || Contains strErr "this account is temporarily locked"
       then logFatalln strErr else mret tt : M unit);;
      logPrintln strErr
  | None => mret tt
  end.

Fixpoint followAll (ids : list Z) (sleepPolicy : option SleepPolicy) : M unit :=
  match ids with
  | [] => mret tt
  | id :: ids =>
      friend ← getFriend id;
      tracked ← (if bool_decide (is_Some friend) then mret true else isFollower id);
      if (tracked : bool) then followAll ids sleepPolicy
      else
        '(user, err) ← FollowUserId id;
        failed ← match err with
                 | Some _ =>
                     unable ← checkUnableToFollowAtThisTime err; mret (negb unable)
                 | None => mret false
                 end;
        if (failed : bool) then
          checkBotRestriction err;;
          printDebug ("[twitter] failed to follow user (id:" +:+ pretty (UserId user)
                      +:+ ", name:" +:+ Name user +:+ "), error: "
                      +:+ default EmptyString err +:+ newline);;
          followAll ids sleepPolicy
        else
          addFriend id;;
          logPrintln ("[twitter] following (id:" +:+ pretty (UserId user)
                      +:+ ", name:" +:+ Name user +:+ ")" +:+ newline);;
          controlledSleep sleepPolicy;;
          followAll ids sleepPolicy
  end.

End Store.

(** ** Properties of snapshots used in the statements *)

(** Every identifier of [old] is still in [new], first seen at the same
    time. *)
Definition sameFirstSeen (old new : twitterUsers) : Prop :=
  ∀ key user, old !! key = Some user →
    ∃ user', new !! key = Some user' ∧ Timestamp user' = Timestamp user.

(** An identifier of [new] is one of [old], or the decimal form of one
    of [ids]. *)
Definition insertedFrom (ids : list Z) (old new : twitterUsers) : Prop :=
  ∀ key, is_Some (new !! key) →
    is_Some (old !! key) ∨ ∃ id, id ∈ ids ∧ key = FormatInt id.

(** A record of [new] is flagged as followed exactly when it was so in
    [old] or when its identifier is one of [ids]. *)
Definition followedFrom (ids : list Z) (old new : twitterUsers) : Prop :=
  ∀ key user', new !! key = Some user' →
    Follow user' = true ↔
    (∃ user, old !! key = Some user ∧ Follow user = true) ∨
    (∃ id, id ∈ ids ∧ key = FormatInt id).

(** What the loops of [updateFollowers] and [updateFriends] do to a map
    when they are given the identifiers [ids]. *)
Definition reconciled (ids : list Z) (old new : twitterUsers) : Prop :=
  sameFirstSeen old new ∧
  (∀ id, id ∈ ids → is_Some (new !! FormatInt id)) ∧
  insertedFrom ids old new ∧
  followedFrom ids old new.

(** How many times [FollowUserId] is called for [id] in a list of events,
    and how many times [id] is listed. *)
Definition followCalls (id : Z) (events : list event) : nat :=
  length (filter (λ e, e = EvFollowUserId id) events).

Definition occurrences (id : Z) (ids : list Z) : nat :=
  length (filter (λ x, x = id) ids).

(** From any state, [m] adds to the trace at most one call of
    [FollowUserId] for each identifier listed in [ids]. *)
Definition callsAtMost {A : Type} (ids : list Z) (m : M A) : Prop :=
  ∀ st, ∃ new,
    trace (m st).2 = trace st ++ new ∧
    ∀ id, (followCalls id new <= occurrences id ids)%nat.

(** ** Environments and states for the examples *)

Definition bot0 : TwitterBot :=
  {| followersPath := "followers.json"; followers := ∅;
     friendsPath := "friends.json"; friends := ∅; debug := false |}.

Definition st0 : St := {| bot := bot0; trace := [] |}.

(** Every save fails; the files are empty maps and nobody follows. *)
Definition failingDisk : Env :=
  {| statNotExist := λ _ _, false;
     saveResult := λ _ _ _, Some "disk full";
     loadResult := λ _ _, inl ∅;
     nowUnixNano := λ _, 0;
     followersIdsAll := λ _, [];
     friendsIdsAll := λ _, [];
     followUserId := λ _ id, ({| UserId := id; Name := "someone" |}, None) |}.

(** Every follow is refused for the time being; the disk works. *)
Definition rateLimited : Env :=
  {| statNotExist := λ _ _, false;
     saveResult := λ _ _ _, None;
     loadResult := λ _ _, inl ∅;
     nowUnixNano := λ h, Z.of_nat (length h);
     followersIdsAll := λ _, [];
     friendsIdsAll := λ _, [];
     followUserId := λ _ _,
       ({| UserId := 0; Name := EmptyString |},
        Some "You are unable to follow more people at this time") |}.

(** The followers file holds the identifier 7, first seen at time 1; the
    remote side now reports the follower 8 only. *)
Definition follower7Left : Env :=
  {| statNotExist := λ _ _, false;
     saveResult := λ _ _ _, None;
     loadResult := λ _ _, inl {[ "7" := {| Timestamp := 1; Follow := true |} ]};
     nowUnixNano := λ h, Z.of_nat (length h);
     followersIdsAll := λ _, [[8]];
     friendsIdsAll := λ _, [];
     followUserId := λ _ id, ({| UserId := id; Name := "someone" |}, None) |}.

(** The same file and the same remote side, with a disk on which every save
    fails. *)
Definition follower7LeftDiskFull : Env :=
  {| statNotExist := λ _ _, false;
     saveResult := λ _ _ _, Some "disk full";
     loadResult := λ _ _, inl {[ "7" := {| Timestamp := 1; Follow := true |} ]};
     nowUnixNano := λ h, Z.of_nat (length h);
     followersIdsAll := λ _, [[8]];
     friendsIdsAll := λ _, [];
     followUserId := λ _ id, ({| UserId := id; Name := "someone" |}, None) |}.

(** The bot holds the followers of that file: the identifier 7, followed. *)
Definition stFollower7 : St :=
  {| bot := {| followersPath := "followers.json";
               followers := {[ "7" := {| Timestamp := 1; Follow := true |} ]};
               friendsPath := "friends.json"; friends := ∅; debug := false |};
     trace := [] |}.


(** ** Properties of the follow flow used in the statements *)

(** The identifier is a key of the friends or of the followers. *)
Definition tracked (id : Z) (b : TwitterBot) : Prop :=
  is_Some (friends b !! FormatInt id) ∨ is_Some (followers b !! FormatInt id).

(** From a state in which [id] is tracked, [m] leaves it tracked and does
    not call [FollowUserId] for it. *)
Definition leavesAlone {A : Type} (id : Z) (m : M A) : Prop :=
  ∀ st, tracked id (bot st) →
    tracked id (bot (m st).2) ∧
    ∃ new, trace (m st).2 = trace st ++ new ∧ followCalls id new = 0%nat.

(** Every follow is refused with the given message; the disk works. *)
Definition refusing (message : string) : Env :=
  {| statNotExist := λ _ _, false;
     saveResult := λ _ _ _, None;
     loadResult := λ _ _, inl ∅;
     nowUnixNano := λ h, Z.of_nat (length h);
     followersIdsAll := λ _, [];
     friendsIdsAll := λ _, [];
     followUserId := λ _ id, ({| UserId := id; Name := "someone" |}, Some message) |}.

(** ** Posting a tweet: [tryPostTweet]

    The remote client is outside the code: each call of [PostTweet] is
    recorded in a trace, with the lines logged, and its answer is a function
    of the trace so far.  Of [url.Values] the code only passes the value
    on. *)

(** Of [anaconda.ApiError] the code reads the [Code] of the errors decoded
    and the text of [Error()]. *)
Record ApiError : Type := { ErrorCodes : list Z; ErrorText : string }.

(** A non-nil [error]: one whose dynamic type is a pointer to
    [anaconda.ApiError] ([None] is the nil pointer), or any other error. *)
Inductive clientError : Type :=
| ApiErr (apiErr : option ApiError)
| OtherErr (message : string).

Inductive postEvent : Type :=
| EvPostTweet (status : string) (v : list (string * string))
| EvPostLog (line : string).

Definition P (A : Type) : Type := list postEvent → outcome A * list postEvent.

#[global] Instance P_ret : MRet P := λ A a h, (Done a, h).

#[global] Instance P_bind : MBind P := λ A B f m h,
  match m h with
  | (Done a, h') => f a h'
  | (Fatal line, h') => (Fatal line, h')
  | (Panic, h') => (Panic, h')
  end.

(** The statuses posted, in order. *)
Definition posted (h : list postEvent) : list string :=
  omap (λ e, match e with EvPostTweet status _ => Some status | EvPostLog _ => None end) h.

Section Posting.

(** [anaconda.TwitterErrorStatusOver140Characters], a constant of the client
    library. *)
Context (TwitterErrorStatusOver140Characters : Z).
(** The answer of [PostTweet(status, v)]. *)
Context (postResult : list postEvent → string → Tweet * option clientError).
(** The [debug] flag of the bot. *)
Context (debugMode : bool).

Definition PostTweet (status : string) (v : list (string * string))
    : P (Tweet * option clientError) :=
  λ h, (Done (postResult h status), h ++ [EvPostTweet status v]).

(** [print(t, text)]. *)
Definition printPost (text : string) : P unit :=
  λ h, (Done (), if debugMode then h ++ [EvPostLog text] else h).

(** A value of [truncate], its panic being the panic of the caller. *)
Definition truncated (status : option string) : P string :=
  λ h, match status with Some s => (Done s, h) | None => (Panic, h) end.

(** The assertion of [err] to the type of a pointer to [anaconda.ApiError]
    has the one-value form: it panics on an error of another type. *)
Definition isStatusOver140CharactersError (err : option clientError) : P bool :=
  match err with
  | None => mret false
  | Some (OtherErr _) => λ h, (Panic, h)
  | Some (ApiErr None) => mret false
  | Some (ApiErr (Some apiErr)) =>
      match ErrorCodes apiErr with
      | code :: _ =>
          if bool_decide (code = TwitterErrorStatusOver140Characters) then
            printPost (ErrorText apiErr);; mret true
          else mret false
      | [] => mret false
      end
  end.

Definition tryPostTweet (msg archiveURL : string) (v : list (string * string))
    : P (Tweet * option clientError) :=
  status ← truncated (truncate msg archiveURL tcoLinksMaxLength);
  '(tweet, err) ← PostTweet status v;
  match err with
  | Some _ =>
      over ← isStatusOver140CharactersError err;
      if (over : bool) then
        status ← truncated (truncate msg archiveURL (len archiveURL));
        '(tweet, err) ← PostTweet status v;
        match err with
        | Some _ => mret (tweet, err)
        | None => mret (tweet, err)
        end
      else mret (tweet, err)
  | None => mret (tweet, None)
  end.

End Posting.

(** ** The friend to unfollow: [getFriendToUnFollow] *)

Import (notations) Stdlib.Strings.Ascii.

(** The digits of [strconv.ParseUint(s, 10, 64)], from the left. *)
Fixpoint parseDigits (s : string) (acc : N) : option N :=
  match s with
  | EmptyString => Some acc
  | String c s =>
      match Ascii.is_nat c with
      | Some d => parseDigits s (acc * 10 + N.of_nat d)
      | None => None
      end
  end.

(** [strconv.ParseInt(s, 10, 64)]: [None] is an error, of syntax (no digit,
    or a byte that is not a digit) or of range.  The value is computed
    without bound and then compared with the range, which is what the
    cut-off tests of the library amount to. *)
Definition ParseInt (s : string) : option Z :=
  match s with
  | EmptyString => None
  | String c rest =>
      let '(neg, digits) :=
        if Ascii.eqb c "+"%char then (false, rest)
        else if Ascii.eqb c "-"%char then (true, rest)
        else (false, s) in
      match digits with
      | EmptyString => None
      | _ =>
          un ← parseDigits digits 0;
          let n := if neg then - Z.of_N un else Z.of_N un in
          if bool_decide (GoInt.in_range n) then Some n else None
      end
  end.

Section Unfollow.

Context (env : Env).
(** The order in which [range] visits the entries of a map, which Go leaves
    unspecified and varies from one loop to the next. *)
Context (rangeOrder : list event → twitterUsers → list (string * twitterUser)).
(** The text of the error of [strconv.ParseInt] on a string. *)
Context (parseIntError : string → error).

(** The loop of [getFriendToUnFollow], over the entries still to visit. *)
Fixpoint getFriendToUnFollow_loop (entries : list (string * twitterUser))
    : M (Z * bool) :=
  match entries with
  | [] => mret (0, false)
  | (strID, user) :: entries =>
      now ← timeNowUnixNano env;
      if bool_decide (GoInt.sub now (Timestamp user) < oneDayInNano)
         || negb (Follow user)
      then getFriendToUnFollow_loop entries
      else
        match ParseInt strID with
        | Some id => mret (id, true)
        | None => logFatalln (parseIntError strID)
        end
  end.

Definition getFriendToUnFollow : M (Z * bool) :=
  t ← getBot;
  h ← history;
  getFriendToUnFollow_loop (rangeOrder h (friends t)).

End Unfollow.

(** The friends map has the key of the identifier 7 only, first seen at
    time 0 and followed; the clock says that two days have passed. *)
Definition twoDaysLater : Env :=
  {| statNotExist := λ _ _, false;
     saveResult := λ _ _ _, None;
     loadResult := λ _ _, inl ∅;
     nowUnixNano := λ _, 2 * oneDayInNano;
     followersIdsAll := λ _, [];
     friendsIdsAll := λ _, [];
     followUserId := λ _ id, ({| UserId := id; Name := "someone" |}, None) |}.

Definition st7 : St :=
  {| bot := {| followersPath := "followers.json"; followers := ∅;
               friendsPath := "friends.json";
               friends := {[ "7" := {| Timestamp := 0; Follow := true |} ]};
               debug := false |};
     trace := [] |}.

(** The record is followed and, by the clock read after the calls of [h],
    at least one day old. *)
Definition eligibleAt (env : Env) (h : list event) (user : twitterUser) : Prop :=
  Follow user = true ∧
  oneDayInNano <= GoInt.sub (nowUnixNano env h) (Timestamp user).

(** Every key is the decimal form of a 64-bit identifier, as are the keys
    that the bot writes. *)
Definition decimalKeys (users : twitterUsers) : Prop :=
  ∀ key, is_Some (users !! key) → ∃ id, GoInt.in_range id ∧ key = FormatInt id.

(** The same with the identifier 8 as a second friend. *)
Definition st78 : St :=
  {| bot := {| followersPath := "followers.json"; followers := ∅;
               friendsPath := "friends.json";
               friends := <[ "8" := {| Timestamp := 0; Follow := true |} ]>
                            {[ "7" := {| Timestamp := 0; Follow := true |} ]};
               debug := false |};
     trace := [] |}.

(** Two friends, none to unfollow at the time of [twoDaysLater]: 7 is not
    followed any more, and 8 was recorded less than one day before. *)
Definition stIdle : St :=
  {| bot := {| followersPath := "followers.json"; followers := ∅;
               friendsPath := "friends.json";
               friends := <[ "8" := {| Timestamp := oneDayInNano + 1; Follow := true |} ]>
                            {[ "7" := {| Timestamp := 0; Follow := false |} ]};
               debug := false |};
     trace := [] |}.

(** An order of visit: that of [map_to_list]. *)
Definition listOrder (h : list event) (m : twitterUsers) : list (string * twitterUser) :=
  map_to_list m.

(** ** Tweets with their author: [removeBanned], [like], [followUser] and
    [retweet]

    Besides [Id] and [Text], these functions read of [anaconda.Tweet] the
    author [User], the count [FavoriteCount] and the pointer
    [RetweetedStatus], which is nil or a tweet again. *)

Inductive Status : Type :=
  MkStatus (tweet : Tweet) (user : User) (favoriteCount : Z)
           (retweetedStatus : option Status).

Definition StatusTweet (s : Status) : Tweet :=
  match s with MkStatus tweet _ _ _ => tweet end.
Definition StatusUser (s : Status) : User :=
  match s with MkStatus _ user _ _ => user end.
Definition FavoriteCount (s : Status) : Z :=
  match s with MkStatus _ _ favoriteCount _ => favoriteCount end.
Definition RetweetedStatus (s : Status) : option Status :=
  match s with MkStatus _ _ _ retweetedStatus => retweetedStatus end.

(** The inner loop of [removeBanned], which stops at the first query
    found. *)
Definition isBanned (tweet : Status) (bannedQueries : list string) : bool :=
  existsb (λ bannedQuery,
             Contains (Text (StatusTweet tweet)) bannedQuery
             || Contains (Name (StatusUser tweet)) bannedQuery)
          bannedQueries.

(** [removeBanned] returns the tweets allowed and the lines it logs. *)
Fixpoint removeBanned_loop (debug : bool) (current : list Status)
    (bannedQueries : list string) (allowed : list Status) (log : list string)
    : list Status * list string :=
  match current with
  | [] => (allowed, log)
  | tweet :: current =>
      if negb (isBanned tweet bannedQueries) then
        removeBanned_loop debug current bannedQueries (allowed ++ [tweet]) log
      else
        removeBanned_loop debug current bannedQueries allowed
          (log ++ print debug ("[twitter] removing banned tweet (id:"
                               +:+ pretty (Id (StatusTweet tweet)) +:+ "), text:"
                               +:+ Text (StatusTweet tweet) +:+ newline))
  end.

Definition removeBanned (debug : bool) (current : list Status)
    (bannedQueries : list string) : list Status * list string :=
  removeBanned_loop debug current bannedQueries [] [].

(** The calls of the retweet flow to the remote client, with the lines
    logged and the sleeps. *)
Inductive retweetEvent : Type :=
| EvFavorite (id : Z)
| EvRetweet (id : Z)
| EvFollowUser (id : Z)
| EvRetweetLog (line : string)
| EvRetweetSleep (nanoseconds : Z).

Record RetweetEnv : Type := {
  (** the error of [Favorite(id)] *)
  favoriteResult : list retweetEvent → Z → option error;
  (** [Retweet(id, false)] *)
  retweetResult : list retweetEvent → Z → Status * option error;
  (** [FollowUserId(id, nil)] *)
  followUserResult : list retweetEvent → Z → User * option error }.

Definition R (A : Type) : Type :=
  list retweetEvent → outcome A * list retweetEvent.

#[global] Instance R_ret : MRet R := λ A a h, (Done a, h).

#[global] Instance R_bind : MBind R := λ A B f m h,
  match m h with
  | (Done a, h') => f a h'
  | (Fatal line, h') => (Fatal line, h')
  | (Panic, h') => (Panic, h')
  end.

(** The identifiers for which [Retweet] was called, in order, and those for
    which [FollowUserId] was. *)
Definition retweetCalls (h : list retweetEvent) : list Z :=
  omap (λ e, match e with EvRetweet id => Some id | _ => None end) h.

Definition followUserCalls (h : list retweetEvent) : list Z :=
  omap (λ e, match e with EvFollowUser id => Some id | _ => None end) h.

Section Retweet.

Context (renv : RetweetEnv).
(** The [debug] flag and the two policies of the bot. *)
Context (debugMode : bool).
Context (likeAuto : bool) (likeThreshold : Z) (retweetLike : bool).

Definition rEmit (e : retweetEvent) : R unit := λ h, (Done (), h ++ [e]).

Definition rLog (line : string) : R unit := rEmit (EvRetweetLog line).

Definition rFatal {A : Type} (line : string) : R A :=
  λ h, (Fatal line, h ++ [EvRetweetLog line]).

Definition rPrint (text : string) : R unit :=
  if debugMode then rLog text else mret ().

Definition Favorite (id : Z) : R (option error) :=
  λ h, (Done (favoriteResult renv h id), h ++ [EvFavorite id]).

Definition Retweet (id : Z) : R (Status * option error) :=
  λ h, (Done (retweetResult renv h id), h ++ [EvRetweet id]).

Definition FollowUser (id : Z) : R (User * option error) :=
  λ h, (Done (followUserResult renv h id), h ++ [EvFollowUser id]).

(** [checkUnableToFollowAtThisTime] and [checkBotRestriction], in this flow. *)
Definition rCheckUnableToFollowAtThisTime (err : option error) : R bool :=
  match err with
  | Some e =>
      if Contains e unableToFollowText then
        rLog ("unable to follow at this time, waiting 15min..., " +:+ e);;
        rEmit (EvRetweetSleep fifteenMinutes);;
        mret true
      else mret false
  | None => mret false
  end.

Definition rCheckBotRestriction (err : option error) : R unit :=
  match err with
  | Some strErr =>
      (if Contains strErr "Invalid or expired token"
          || Contains strErr "this account is temporarily locked"
       then rFatal strErr else mret () : R unit);;
      rLog strErr
  | None => mret ()
  end.

Fixpoint like (tweet : Status) : R unit :=
  if negb likeAuto then mret ()
  else if bool_decide (FavoriteCount tweet > likeThreshold) then
    err ← Favorite (Id (StatusTweet tweet));
    match err with
    | Some e =>
        rPrint ("[twitter] failed to like tweet (id:" +:+ pretty (Id (StatusTweet tweet))
                +:+ "), error: " +:+ e +:+ newline)
    | None =>
        rLog ("[twitter] liked tweet (id:" +:+ pretty (Id (StatusTweet tweet))
              +:+ ")" +:+ newline)
    end
  else
    match tweet with
    | MkStatus _ _ _ (Some retweeted) =>
        if bool_decide (FavoriteCount retweeted > likeThreshold) then like retweeted
        else mret ()
    | MkStatus _ _ _ None => mret ()
    end.

Definition followUser (user : User) : R unit :=
  '(followed, err) ← FollowUser (UserId user);
  failed ← match err with
           | Some _ => unable ← rCheckUnableToFollowAtThisTime err; mret (negb unable)
           | None => mret false
           end;
  (if (failed : bool) then
     rCheckBotRestriction err;;
     rPrint ("[twitter] failed to follow user (id:" +:+ pretty (UserId user)
             +:+ ", name:" +:+ Name user +:+ "), error: "
             +:+ default EmptyString err +:+ newline)
   else mret () : R unit);;
  rLog ("[twitter] following user (id:" +:+ pretty (UserId followed)
        +:+ ", name:" +:+ Name followed +:+ ")" +:+ newline).

(** The zero value of [anaconda.Tweet], as far as it is read. *)
Definition zeroStatus : Status :=
  MkStatus {| Id := 0; Text := EmptyString |}
           {| UserId := 0; Name := EmptyString |} 0 None.

Fixpoint retweet (current : list Status) : R (Status * option error) :=
  match current with
  | [] => mret (zeroStatus, Some "unable to retweet")
  | tweet :: current =>
      (if retweetLike then like tweet else mret () : R unit);;
      '(retweeted, err) ← Retweet (Id (StatusTweet tweet));
      match err with
      | Some e =>
          rPrint ("[twitter] failed to retweet tweet (id:"
                  +:+ pretty (Id (StatusTweet tweet)) +:+ "), error: " +:+ e +:+ newline);;
          followUser (StatusUser tweet);;
          retweet current
      | None =>
          let rt := retweeted in
          (if retweetLike then like rt else mret () : R unit);;
          rLog ("[twitter] retweet (rid:" +:+ pretty (Id (StatusTweet rt))
                +:+ ", id:" +:+ pretty (Id (StatusTweet tweet)) +:+ ")" +:+ newline);;
          followUser (StatusUser tweet);;
          mret (rt, None)
      end
  end.

End Retweet.

(** Every call of [Retweet] among the events [new], made after the
    history [h], was answered with an error. *)
Definition allRetweetsFailed (renv : RetweetEnv) (h new : list retweetEvent) : Prop :=
  ∀ pre id post, new = pre ++ EvRetweet id :: post →
    is_Some (retweetResult renv (h ++ pre) id).2.

(** * Proofs *)

(** ** Integers and byte strings *)

Ltac unfold_int :=
  unfold GoInt.in_range, GoInt.add, GoInt.sub, GoInt.wrap,
    GoInt.min_int, GoInt.max_int in *;
  change (2 ^ 63) with 9223372036854775808 in *;
  change (2 ^ 64) with 18446744073709551616 in *.

Ltac int_lia := unfold_int; Z.div_mod_to_equations; lia.

Lemma wrap_in_range z : GoInt.in_range z → GoInt.wrap z = z.
Proof. intros. int_lia. Qed.

Lemma wrap_range z : GoInt.in_range (GoInt.wrap z).
Proof. int_lia. Qed.

Lemma string_length_app (s t : string) :
  String.length (s +:+ t) = (String.length s + String.length t)%nat.
Proof. induction s as [|c s IH]; simpl; [done | by rewrite IH]. Qed.

Lemma len_app (s t : string) : len (s +:+ t) = len s + len t.
Proof. unfold len. rewrite string_length_app. lia. Qed.

Lemma len_nonneg s : 0 <= len s.
Proof. unfold len. lia. Qed.

Lemma length_substring0 (n : nat) (s : string) :
  (n <= String.length s)%nat → String.length (String.substring 0 n s) = n.
Proof.
  revert s. induction n as [|n IH]; intros [|c s] Hn; simpl in *; try lia; try done.
  rewrite IH; lia.
Qed.

Lemma slice_to_Some s n :
  0 <= n <= len s → ∃ r, slice_to s n = Some r ∧ len r = n.
Proof.
  intros Hn. unfold slice_to. rewrite bool_decide_eq_true_2 by done.
  eexists. split; [done|]. unfold len in *.
  rewrite length_substring0; lia.
Qed.

(** ** [truncate] *)

Ltac truncate_cases :=
  unfold truncate, tweetTextMaxSize, tweetTruncatedTextMin;
  change (len "... ") with 4; change (len " ") with 1;
  repeat case_bool_decide.

Ltac take_slice s n r Hr Hlen :=
  let H := fresh in
  assert (H : 0 <= n <= len s) by int_lia;
  destruct (slice_to_Some s n H) as (r & Hr & Hlen);
  rewrite Hr; clear H.

(** [truncate] never panics: each slice it takes is within the string. *)
Lemma truncate_returns (msg archiveURL : string) (urlMaxLength : Z) :
  GoInt.in_range urlMaxLength →
  len msg + 4 <= GoInt.max_int →
  is_Some (truncate msg archiveURL urlMaxLength).
Proof.
  intros Hu Hmsg. pose proof (len_nonneg msg).
  truncate_cases; try done.
  - take_slice msg (GoInt.sub 140 4) r Hr Hlen. simpl. done.
  - take_slice msg (GoInt.sub (len msg)
      (GoInt.sub (GoInt.add (GoInt.add (len msg) 4) urlMaxLength) 140)) r Hr Hlen.
    done.
  - take_slice msg (GoInt.sub 140 1) r Hr Hlen. done.
Qed.

(** The budget of [truncate], counting the link at its reserved width: the
    output is longer than 140 bytes only by what the link's literal length
    exceeds the width reserved for it. *)
Lemma truncate_length (msg archiveURL : string) (urlMaxLength : Z) (out : string) :
  GoInt.min_int <= urlMaxLength →
  len msg + 4 + Z.max 0 urlMaxLength <= GoInt.max_int →
  truncate msg archiveURL urlMaxLength = Some out →
  len out <= tweetTextMaxSize + Z.max 0 (len archiveURL - urlMaxLength).
Proof.
  intros Hu Hmsg. pose proof (len_nonneg msg). pose proof (len_nonneg archiveURL).
  truncate_cases; intros Hout.
  - revert Hout. take_slice msg (GoInt.sub 140 4) r Hr Hlen.
    simpl. intros [= <-]. rewrite len_app. change (len "...") with 3. int_lia.
  - injection Hout as <-. lia.
  - injection Hout as <-. rewrite !len_app. change (len " ") with 1. int_lia.
  - revert Hout.
    take_slice msg (GoInt.sub (len msg)
      (GoInt.sub (GoInt.add (GoInt.add (len msg) 4) urlMaxLength) 140)) r Hr Hlen.
    simpl. intros [= <-]. rewrite !len_app. change (len "... ") with 4. int_lia.
  - injection Hout as <-. lia.
  - injection Hout as <-. lia.
  - revert Hout. take_slice msg (GoInt.sub 140 1) r Hr Hlen.
    simpl. intros [= <-]. int_lia.
Qed.

(** C1, as amended: for every message, link and reserved width (a Go [int],
    with no overflow of the sums of the lengths), [truncate] returns, and its
    output is at most 140 bytes long plus the amount by which the link's
    literal length exceeds its reserved width; so it is at most 140 bytes
    long whenever the link is no longer than the width reserved for it. *)
Theorem C1_truncate_budget (msg archiveURL : string) (urlMaxLength : Z) :
  GoInt.min_int <= urlMaxLength →
  len msg + 4 + Z.max 0 urlMaxLength <= GoInt.max_int →
  ∃ out, truncate msg archiveURL urlMaxLength = Some out ∧
         len out <= tweetTextMaxSize + Z.max 0 (len archiveURL - urlMaxLength) ∧
         (len archiveURL <= urlMaxLength → len out <= tweetTextMaxSize).
Proof.
  intros Hu Hmsg.
  destruct (truncate_returns msg archiveURL urlMaxLength) as [out Hout].
  { pose proof (len_nonneg msg). int_lia. }
  { lia. }
  exists out. split; [done|].
  pose proof (truncate_length _ _ _ _ Hu Hmsg Hout). split; lia.
Qed.

Lemma C1_truncate_budget_witness :
  ∃ out, truncate string42 url140 140 = Some out ∧
         len out <= tweetTextMaxSize + Z.max 0 (len url140 - 140) ∧
         (len url140 <= 140 → len out <= tweetTextMaxSize).
Proof. apply (C1_truncate_budget string42 url140 140); vm_compute; discriminate. Defined.

(** C1, as stated, fails: with the width of 24 that [tryPostTweet] reserves
    for a link, a 4-byte message and a 140-byte link give 145 bytes. *)
Lemma C1_truncate_over_budget :
  ∃ out, truncate "test" url140 tcoLinksMaxLength = Some out ∧ ¬ (len out <= 140).
Proof. eexists. split; [vm_compute; reflexivity|]. vm_compute. intros H; apply H; reflexivity. Qed.

(** C2, as amended: the examples of the specification, the link of the third
    one being given its literal length of 140 as reserved width, and the
    fourth one giving 139 bytes: the first 136 bytes of the message and a
    3-byte ellipsis. *)
Theorem C2_truncate_examples :
  truncate "test" "" 0 = Some "test" ∧
  truncate "test" "test_url" 8 = Some "test test_url" ∧
  (∀ msg archiveURL : string,
     len msg = 42 → len archiveURL = 140 →
     truncate msg archiveURL 140 = Some archiveURL) ∧
  (∀ msg : string,
     len msg = 141 →
     ∃ out, truncate msg "" 0 = Some out ∧
            out = String.substring 0 136 msg +:+ "..." ∧ len out = 139) ∧
  (∀ msg : string, len msg = 140 → truncate msg "" 0 = Some msg).
Proof.
  split; [reflexivity|]. split; [reflexivity|]. split; [|split].
  - intros msg archiveURL Hmsg Hurl. truncate_cases; try done; exfalso; int_lia.
  - intros msg Hmsg.
    assert (Hs : slice_to msg 136 = Some (String.substring 0 136 msg)).
    { unfold slice_to. rewrite bool_decide_eq_true_2 by lia. done. }
    exists (String.substring 0 136 msg +:+ "...").
    split; [|split; [done|]].
    + truncate_cases; try lia.
      change (GoInt.sub 140 4) with 136. rewrite Hs. reflexivity.
    + rewrite len_app. unfold len in *. rewrite length_substring0 by lia.
      simpl. lia.
  - intros msg Hmsg. truncate_cases; try done; lia.
Qed.

Lemma C2_truncate_examples_witness :
  truncate string42 url140 140 = Some url140 ∧
  truncate string141 "" 0 =
    Some "Wrote water woman of heart it total other. By in entirely securing suitable graceful at families improved. Zealously few furniture repul..." ∧
  truncate string140 "" 0 = Some string140.
Proof.
  destruct C2_truncate_examples as (_ & _ & Hlink & Hcut & Hfit).
  split; [apply Hlink; reflexivity|].
  split; [|apply Hfit; reflexivity].
  destruct (Hcut string141 eq_refl) as (out & -> & -> & _). reflexivity.
Defined.

(** C2, as stated, fails: the 141-byte message of the tests is cut down to
    139 bytes, not 140. *)
Lemma C2_truncate_141_gives_139 :
  len string141 = 141 ∧
  ∃ out, truncate string141 "" 0 = Some out ∧ len out = 139 ∧ len out ≠ 140.
Proof. split; [reflexivity|]. eexists. split; [vm_compute; reflexivity|]. split; [reflexivity|]. vm_compute. discriminate. Qed.

(** ** Searching and splitting strings *)

Lemma app_String (c : Ascii.ascii) (a b : string) :
  String c a +:+ b = String c (a +:+ b).
Proof. reflexivity. Qed.

Lemma app_assoc_string (a b c : string) : (a +:+ b) +:+ c = a +:+ (b +:+ c).
Proof. induction a as [|d a IH]; [done|]. rewrite !app_String. by f_equal. Qed.

Lemma prefix_app_skip (p s : string) :
  String.prefix p s = true → s = p +:+ skip (String.length p) s.
Proof.
  revert s. induction p as [|c p IH]; intros [|d s]; simpl; try done.
  destruct (Ascii.ascii_dec c d) as [->|]; [|done].
  intros Hp. rewrite app_String. f_equal. by apply IH.
Qed.

Lemma prefix_app (p t : string) : String.prefix p (p +:+ t) = true.
Proof.
  induction p as [|c p IH]; [by destruct t|].
  rewrite app_String. simpl.
  destruct (Ascii.ascii_dec c c); [done|congruence].
Qed.

Lemma cut_unfold (s sep : string) :
  cut s sep =
  if String.prefix sep s then Some (EmptyString, skip (String.length sep) s)
  else
    match s with
    | EmptyString => None
    | String c s' =>
        match cut s' sep with
        | Some (before, after) => Some (String c before, after)
        | None => None
        end
    end.
Proof. by destruct s. Qed.

(** [cut] splits around an occurrence of the separator. *)
Lemma cut_Some (s sep before after : string) :
  cut s sep = Some (before, after) → s = before +:+ sep +:+ after.
Proof.
  revert before after.
  induction s as [|c s IH]; intros before after; rewrite cut_unfold.
  - destruct (String.prefix sep "") eqn:Hp; [|done].
    intros [= <- <-]. by apply prefix_app_skip in Hp.
  - destruct (String.prefix sep (String c s)) eqn:Hp.
    + intros [= <- <-]. by apply prefix_app_skip in Hp.
    + destruct (cut s sep) as [[b a]|] eqn:Hcut; [|done].
      intros [= <- <-]. rewrite app_String. f_equal. by apply IH.
Qed.

(** [cut] fails only on a string without any occurrence of the separator. *)
Lemma cut_None (s sep : string) :
  cut s sep = None → ∀ before after, s ≠ before +:+ sep +:+ after.
Proof.
  induction s as [|c s IH]; rewrite cut_unfold.
  - destruct (String.prefix sep "") eqn:Hp; [done|].
    intros _ [|d before] after; [|done].
    intros Heq. change ("" +:+ sep +:+ after) with (sep +:+ after) in Heq.
    by rewrite Heq, prefix_app in Hp.
  - destruct (String.prefix sep (String c s)) eqn:Hp; [done|].
    destruct (cut s sep) as [[b a]|] eqn:Hcut; [done|].
    intros _ [|d before] after.
    + intros Heq. change ("" +:+ sep +:+ after) with (sep +:+ after) in Heq.
      by rewrite Heq, prefix_app in Hp.
    + rewrite app_String. intros [= -> Heq]. by eapply IH.
Qed.

(** [Contains] is the substring test. *)
Lemma Contains_spec (s substr : string) :
  Contains s substr = true ↔ ∃ before after, s = before +:+ substr +:+ after.
Proof.
  unfold Contains. destruct (cut s substr) as [[b a]|] eqn:Hcut.
  - split; [|done]. intros _. exists b, a. by apply cut_Some.
  - split; [done|]. intros (b & a & Heq). by eapply cut_None in Heq.
Qed.

Lemma Contains_app_l (s t substr : string) :
  Contains s substr = true → Contains (s +:+ t) substr = true.
Proof.
  rewrite !Contains_spec. intros (b & a & ->). exists b, (a +:+ t).
  by rewrite !app_assoc_string.
Qed.

Lemma cut_length (s sep before after : string) :
  cut s sep = Some (before, after) →
  String.length s = (String.length before + String.length sep + String.length after)%nat.
Proof. intros ->%cut_Some. rewrite !string_length_app. lia. Qed.

(** A string without [": "] followed by [": "]: the first occurrence is the
    one at the end. *)
Lemma cut_retweetTextIndex_end (s : string) :
  Contains s retweetTextIndex = false →
  cut (s +:+ retweetTextIndex) retweetTextIndex = Some (s, EmptyString).
Proof.
  unfold Contains, retweetTextIndex.
  induction s as [|c s IH]; [done|].
  intros Hc. rewrite cut_unfold in Hc.
  rewrite app_String, cut_unfold.
  destruct (String.prefix ": " (String c s)) eqn:Hp; [done|].
  destruct (cut s ": ") as [[b a]|] eqn:Hcut; [done|].
  rewrite IH by done.
  destruct (String.prefix ": " (String c (s +:+ ": "))) eqn:Hp'; [exfalso|done].
  clear IH Hc Hcut.
  cbn [String.prefix] in Hp, Hp'.
  destruct (Ascii.ascii_dec _ c) as [<-|]; [|done].
  destruct s as [|d s]; [done|].
  rewrite app_String in Hp'. cbn [String.prefix] in Hp, Hp'.
  destruct (Ascii.ascii_dec _ d); [|done].
  destruct s; done.
Qed.

(** A string without [": "], then [": "], then anything: the first
    occurrence of [": "] is the one written. *)
Lemma cut_retweetTextIndex_app (s rest : string) :
  Contains s retweetTextIndex = false →
  cut (s +:+ retweetTextIndex +:+ rest) retweetTextIndex = Some (s, rest).
Proof.
  unfold Contains, retweetTextIndex.
  induction s as [|c s IH].
  { intros _. rewrite cut_unfold.
    change ("" +:+ ": " +:+ rest) with (": " +:+ rest). by rewrite prefix_app. }
  intros Hc. rewrite cut_unfold in Hc.
  rewrite app_String, cut_unfold.
  destruct (String.prefix ": " (String c s)) eqn:Hp; [done|].
  destruct (cut s ": ") as [[b a]|] eqn:Hcut; [done|].
  rewrite IH by done.
  destruct (String.prefix ": " (String c (s +:+ ": " +:+ rest))) eqn:Hp'; [exfalso|done].
  clear IH Hc Hcut.
  cbn [String.prefix] in Hp, Hp'.
  destruct (Ascii.ascii_dec _ c) as [<-|]; [|done].
  destruct s as [|d s]; [done|].
  rewrite app_String in Hp'. cbn [String.prefix] in Hp, Hp'.
  destruct (Ascii.ascii_dec _ d); [|done].
  destruct s; done.
Qed.

(** ** [stripText] and the loop of [getOriginalText] *)

(** [stripText] without its intermediate slices. *)
Lemma stripText_eq (text tostripped endSep : string) :
  stripText text tostripped endSep =
  match cut text tostripped with
  | None => (text, false)
  | Some (before, after) =>
      match cut after endSep with
      | Some (_, rest) => (before +:+ rest, true)
      | None => (before, true)
      end
  end.
Proof.
  unfold stripText, Contains, SplitN2.
  destruct (cut text tostripped) as [[before after]|]; [|done].
  cbn. by destruct (cut after endSep) as [[link rest]|].
Qed.

Lemma stripText_false (text tostripped endSep : string) :
  Contains text tostripped = false →
  stripText text tostripped endSep = (text, false).
Proof. unfold stripText. by intros ->. Qed.

Lemma stripText_true (text tostripped endSep : string) :
  Contains text tostripped = true →
  ∃ stripped, stripText text tostripped endSep = (stripped, true) ∧
    (String.length stripped + String.length tostripped <= String.length text)%nat.
Proof.
  rewrite stripText_eq. unfold Contains.
  destruct (cut text tostripped) as [[before after]|] eqn:Hcut; [|done].
  intros _. apply cut_length in Hcut.
  destruct (cut after endSep) as [[link rest]|] eqn:Hcut2.
  - apply cut_length in Hcut2. eexists. split; [done|].
    rewrite string_length_app. lia.
  - eexists. split; [done|]. lia.
Qed.

Lemma stripText_flag (text tostripped endSep : string) :
  (stripText text tostripped endSep).2 = Contains text tostripped.
Proof. unfold stripText. by destruct (Contains text tostripped). Qed.

(** The loop stops within as many rounds as the text has bytes, plus one. *)
Lemma stripLinks_enough (fuel : nat) (text : string) :
  (String.length text < fuel)%nat → is_Some (stripLinks fuel text).
Proof.
  revert text. induction fuel as [|fuel IH]; intros text Hfuel; [lia|].
  cbn [stripLinks].
  destruct (Contains text tweetTCOHTTPTag) eqn:Hc1.
  - destruct (stripText_true text tweetTCOHTTPTag tweetTCOTextIndex Hc1)
      as (s1 & -> & Hlen1).
    change (String.length tweetTCOHTTPTag) with 11%nat in Hlen1.
    destruct (Contains s1 tweetTCOHTTPSTag) eqn:Hc2.
    + destruct (stripText_true s1 tweetTCOHTTPSTag tweetTCOTextIndex Hc2)
        as (s2 & -> & Hlen2).
      cbn. apply IH. lia.
    + rewrite stripText_false by done. cbn. apply IH. lia.
  - rewrite stripText_false by done.
    destruct (Contains text tweetTCOHTTPSTag) eqn:Hc2.
    + destruct (stripText_true text tweetTCOHTTPSTag tweetTCOTextIndex Hc2)
        as (s2 & -> & Hlen2).
      change (String.length tweetTCOHTTPSTag) with 12%nat in Hlen2.
      cbn. apply IH. lia.
    + rewrite stripText_false by done. cbn. done.
Qed.

(** What the loop returns holds no t.co link any more. *)
Lemma stripLinks_fixpoint (fuel : nat) (text stripped : string) :
  stripLinks fuel text = Some stripped →
  Contains stripped tweetTCOHTTPTag = false ∧
  Contains stripped tweetTCOHTTPSTag = false.
Proof.
  revert text. induction fuel as [|fuel IH]; intros text; [done|].
  cbn [stripLinks].
  destruct (stripText text tweetTCOHTTPTag tweetTCOTextIndex) as [s1 b1] eqn:H1.
  destruct (stripText s1 tweetTCOHTTPSTag tweetTCOTextIndex) as [s2 b2] eqn:H2.
  pose proof (stripText_flag text tweetTCOHTTPTag tweetTCOTextIndex) as Hb1.
  pose proof (stripText_flag s1 tweetTCOHTTPSTag tweetTCOTextIndex) as Hb2.
  rewrite H1 in Hb1. rewrite H2 in Hb2. simpl in Hb1, Hb2. subst b1 b2.
  destruct (Contains text tweetTCOHTTPTag) eqn:Hc1;
    destruct (Contains s1 tweetTCOHTTPSTag) eqn:Hc2; cbn; try apply IH.
  rewrite stripText_false in H1 by done. rewrite stripText_false in H2 by done.
  intros [= <-]. by simplify_eq.
Qed.

(** On a text without t.co link the loop stops at once. *)
Lemma stripLinks_clean (fuel : nat) (text : string) :
  Contains text tweetTCOHTTPTag = false →
  Contains text tweetTCOHTTPSTag = false →
  stripLinks (S fuel) text = Some text.
Proof.
  intros Hc1 Hc2. cbn [stripLinks].
  rewrite stripText_false by done. by rewrite stripText_false by done.
Qed.

(** [getOriginalText] returns on every text. *)
Lemma getOriginalText_returns (text : string) : is_Some (getOriginalText text).
Proof.
  unfold getOriginalText.
  destruct (Contains text retweetTextTag); [case_bool_decide|]; try done.
  - destruct (stripLinks_enough (S (String.length (SplitN2 text retweetTextIndex !!! 1%nat)))
                (SplitN2 text retweetTextIndex !!! 1%nat)) as [s ->]; [lia|done].
  - destruct (stripLinks_enough (S (String.length text)) text) as [s ->]; [lia|done].
Qed.

(** ** [getOriginalText] *)

(** [getOriginalText] without its intermediate slices. *)
Lemma getOriginalText_eq (text : string) :
  getOriginalText text =
  if Contains text retweetTextTag then
    match cut text retweetTextIndex with
    | Some (_, rest) =>
        stripped ← stripLinks (S (String.length rest)) rest; Some (stripped, None)
    | None => Some (EmptyString, Some ("[twitter] error parsing a tweet text: " +:+ text))
    end
  else stripped ← stripLinks (S (String.length text)) text; Some (stripped, None).
Proof.
  unfold getOriginalText, SplitN2.
  destruct (Contains text retweetTextTag); [|done].
  by destruct (cut text retweetTextIndex) as [[before rest]|].
Qed.

(** C3, as amended: for every text on which [getOriginalText] succeeds and
    whose result holds no attribution marker ["RT @"], [getOriginalText]
    succeeds on the result and returns it unchanged. *)
Theorem C3_normalize_idempotent (x y : string) :
  getOriginalText x = Some (y, None) →
  Contains y retweetTextTag = false →
  getOriginalText y = Some (y, None).
Proof.
  intros Hx Hy.
  assert (Hclean : Contains y tweetTCOHTTPTag = false ∧
                   Contains y tweetTCOHTTPSTag = false).
  { rewrite getOriginalText_eq in Hx.
    destruct (Contains x retweetTextTag).
    - destruct (cut x retweetTextIndex) as [[before rest]|]; [|done].
      destruct (stripLinks _ rest) as [s|] eqn:Hs; [|done].
      injection Hx as ->. by eapply stripLinks_fixpoint.
    - destruct (stripLinks _ x) as [s|] eqn:Hs; [|done].
      injection Hx as ->. by eapply stripLinks_fixpoint. }
  destruct Hclean as [Hc1 Hc2].
  rewrite getOriginalText_eq, Hy. by rewrite stripLinks_clean.
Qed.

Lemma C3_normalize_idempotent_witness :
  getOriginalText rawtweet = Some (rawtweet, None).
Proof. apply (C3_normalize_idempotent retweet1 rawtweet); vm_compute; reflexivity. Defined.

(** C3, as stated, fails: a retweet of a retweet is unwrapped once, and what
    is left is a text with a marker and no separator, on which
    [getOriginalText] fails. *)
Lemma C3_normalize_twice_differs :
  getOriginalText "RT @a: RT @b" = Some ("RT @b", None) ∧
  getOriginalText "RT @b" ≠ Some ("RT @b", None) ∧
  ∃ err, getOriginalText "RT @b" = Some ("", Some err).
Proof.
  split; [vm_compute; reflexivity|]. split; [vm_compute; discriminate|].
  eexists. vm_compute. reflexivity.
Qed.

(** An error comes with the empty string, and only from a text with a
    marker and no separator. *)
Lemma getOriginalText_error_inv (text original : string) (err : error) :
  getOriginalText text = Some (original, Some err) →
  Contains text retweetTextTag = true ∧
  Contains text retweetTextIndex = false ∧
  original = EmptyString.
Proof.
  rewrite getOriginalText_eq.
  destruct (Contains text retweetTextTag) eqn:Htag.
  - destruct (cut text retweetTextIndex) as [[before rest]|] eqn:Hcut.
    + by destruct (stripLinks _ rest).
    + intros [= <- <-]. unfold Contains. by rewrite Hcut.
  - by destruct (stripLinks _ text).
Qed.

(** C4: [getOriginalText] fails exactly on the texts that hold the marker
    ["RT @"] and no separator [": "], and then returns the empty string with
    the error.  On a text with the marker it is the first separator of the
    whole text that counts: what is returned, with no error, is what follows
    that separator, its links stripped.  So a text with a marker whose first
    separator is at its end gives the empty string, and no error. *)
Theorem C4_malformed_attribution :
  (∀ text : string,
     Contains text retweetTextTag = true →
     Contains text retweetTextIndex = false →
     ∃ err, getOriginalText text = Some (EmptyString, Some err)) ∧
  (∀ (text original : string) (err : error),
     getOriginalText text = Some (original, Some err) →
     Contains text retweetTextTag = true ∧
     Contains text retweetTextIndex = false ∧
     original = EmptyString) ∧
  (∀ marked : string,
     Contains marked retweetTextTag = true →
     Contains marked retweetTextIndex = false →
     getOriginalText (marked +:+ retweetTextIndex) = Some (EmptyString, None)) ∧
  (∀ before rest : string,
     Contains before retweetTextIndex = false →
     Contains (before +:+ retweetTextIndex +:+ rest) retweetTextTag = true →
     getOriginalText (before +:+ retweetTextIndex +:+ rest)
     = (stripped ← stripLinks (S (String.length rest)) rest; Some (stripped, None))).
Proof.
  split_and!.
  - intros text Htag Hsep. rewrite getOriginalText_eq, Htag.
    unfold Contains in Hsep.
    destruct (cut text retweetTextIndex) as [[before rest]|]; [done|]. eauto.
  - apply getOriginalText_error_inv.
  - intros marked Htag Hsep. rewrite getOriginalText_eq.
    rewrite (Contains_app_l _ _ _ Htag).
    by rewrite (cut_retweetTextIndex_end _ Hsep).
  - intros before rest Hsep Htag. rewrite getOriginalText_eq, Htag.
    by rewrite (cut_retweetTextIndex_app _ _ Hsep).
Qed.

Lemma C4_malformed_attribution_witness :
  (∃ err, getOriginalText retweet5 = Some (EmptyString, Some err)) ∧
  getOriginalText retweet4 = Some (EmptyString, None) ∧
  getOriginalText retweet1 = Some (rawtweet, None).
Proof.
  destruct C4_malformed_attribution as (Hfail & _ & Hempty & Hfirst). split_and!.
  - apply Hfail; reflexivity.
  - apply (Hempty "RT @twitandrewking"); reflexivity.
  - transitivity (stripped ← stripLinks (S (String.length tweet1)) tweet1;
                  Some (stripped, @None error)).
    + apply (Hfirst "RT @twitandrewking" tweet1); reflexivity.
    + vm_compute. reflexivity.
Defined.

(** C4, as stated, fails: with a separator before the marker, a text in
    which the marker is immediately followed by a separator and nothing
    else is split at the earlier separator, and what is returned is not the
    empty string. *)
Lemma C4_separator_before_marker :
  Contains "x: RT @: " retweetTextTag = true ∧
  getOriginalText "x: RT @: " = Some ("RT @: ", None) ∧
  getOriginalText "x: RT @: " ≠ Some (EmptyString, None) ∧
  getOriginalText "x: RT @n: " = Some ("RT @n: ", None).
Proof.
  split_and!; [vm_compute; reflexivity | vm_compute; reflexivity
              | vm_compute; discriminate | vm_compute; reflexivity].
Qed.

(** ** The duplicate filter *)

Lemma getOriginalText_fingerprint (tweet : Tweet) :
  getOriginalText (Text tweet) = Some (fingerprint tweet, parseError tweet).
Proof.
  unfold fingerprint, parseError.
  destruct (getOriginalText_returns (Text tweet)) as [[original err] ->]. done.
Qed.

(** A tweet whose text cannot be parsed is filed under the empty string. *)
Lemma fingerprint_malformed (tweet : Tweet) :
  is_Some (parseError tweet) → fingerprint tweet = EmptyString.
Proof.
  intros [err Herr]. pose proof (getOriginalText_fingerprint tweet) as Hg.
  rewrite Herr in Hg. by apply getOriginalText_error_inv in Hg as (_ & _ & ->).
Qed.

(** The loop of [removeDuplicates], from any state of its two variables. *)
Lemma removeDuplicates_loop_spec (debug : bool) (current : list Tweet)
    (temp : gset string) (stripped : list Tweet) (log : list string) :
  ∃ kept log',
    removeDuplicates_loop debug current temp stripped log
      = Some (stripped ++ kept, log ++ log') ∧
    kept `sublist_of` current ∧
    (∀ t, t ∈ kept → fingerprint t ∉ temp) ∧
    NoDup (fingerprint <$> kept) ∧
    (∀ t, t ∈ current →
       fingerprint t ∈ temp ∨ ∃ t', t' ∈ kept ∧ fingerprint t' = fingerprint t) ∧
    (∀ t err, t ∈ current → parseError t = Some err → err ∈ log').
Proof.
  revert temp stripped log.
  induction current as [|tweet current IH]; intros temp stripped log.
  - exists [], []. rewrite !app_nil_r. cbn.
    split_and!; [done|done|set_solver|constructor|set_solver|set_solver].
  - cbn [removeDuplicates_loop]. rewrite getOriginalText_fingerprint. cbn.
    case_bool_decide as Hseen.
    + destruct (IH ({[fingerprint tweet]} ∪ temp) (stripped ++ [tweet])
                  (log ++ logError (parseError tweet)))
        as (kept & log' & -> & Hsub & Hfresh & Hnodup & Hcover & Hlog).
      exists (tweet :: kept), (logError (parseError tweet) ++ log').
      rewrite <- !(assoc_L (++)). split; [done|].
      split_and!.
      * by apply sublist_skip.
      * intros t [->|Ht]%elem_of_cons; [done|]. apply Hfresh in Ht. set_solver.
      * rewrite fmap_cons. constructor; [|done].
        intros (t & Heq & Ht)%list_elem_of_fmap. apply Hfresh in Ht. set_solver.
      * intros t [->|Ht]%elem_of_cons; [right; set_solver|].
        destruct (Hcover t Ht) as [Hin|(t' & Ht' & Heq)].
        -- apply elem_of_union in Hin as [->%elem_of_singleton|Hin]; [|by left].
           right. exists tweet. set_solver.
        -- right. exists t'. set_solver.
      * intros t err [->|Ht]%elem_of_cons Herr.
        -- rewrite Herr. set_solver.
        -- apply elem_of_app. right. by eapply Hlog.
    + destruct (IH temp stripped
                  ((log ++ logError (parseError tweet)) ++
                   print debug ("[twitter] found a duplicate (id:" +:+ pretty (Id tweet)
                                +:+ "), text:" +:+ Text tweet +:+ newline)))
        as (kept & log' & -> & Hsub & Hfresh & Hnodup & Hcover & Hlog).
      eexists kept, _. rewrite <- !(assoc_L (++)). split; [done|].
      split_and!; [by apply sublist_cons|done|done| |].
      * intros t [->|Ht]%elem_of_cons; [by left|]. by apply Hcover.
      * intros t err [->|Ht]%elem_of_cons Herr.
        -- rewrite Herr. set_solver.
        -- rewrite !elem_of_app. right. right. by eapply Hlog.
Qed.

Lemma union_swap `{Countable K} (A B C : gset K) : A ∪ (B ∪ C) = B ∪ A ∪ C.
Proof. by rewrite (assoc_L (∪)), (comm_L (∪) A B). Qed.

(** The first loop of [takeDifference] collects the identifiers and the
    fingerprints of [previous]. *)
Lemma takeDifference_seen_spec (previous : list Tweet)
    (addedByID : gset Z) (addedByText : gset string) (log : list string) :
  ∃ log',
    takeDifference_seen previous addedByID addedByText log
      = Some (list_to_set (Id <$> previous) ∪ addedByID,
              list_to_set (fingerprint <$> previous) ∪ addedByText,
              log ++ log') ∧
    (∀ t err, t ∈ previous → parseError t = Some err → err ∈ log').
Proof.
  revert addedByID addedByText log.
  induction previous as [|v previous IH]; intros addedByID addedByText log.
  - exists []. cbn. rewrite app_nil_r, !(left_id_L ∅ (∪)). set_solver.
  - cbn [takeDifference_seen]. rewrite getOriginalText_fingerprint. cbn.
    destruct (IH ({[Id v]} ∪ addedByID) ({[fingerprint v]} ∪ addedByText)
                (log ++ logError (parseError v))) as (log' & -> & Hlog).
    exists (logError (parseError v) ++ log').
    rewrite <- !(assoc_L (++)). split.
    + by rewrite !union_swap.
    + intros t err [->|Ht]%elem_of_cons Herr.
      * rewrite Herr. set_solver.
      * apply elem_of_app. right. by eapply Hlog.
Qed.

(** The second loop of [takeDifference], from any state of its variables. *)
Lemma takeDifference_loop_spec (debug : bool) (current : list Tweet)
    (addedByID : gset Z) (addedByText : gset string)
    (diff : list Tweet) (log : list string) :
  ∃ kept log',
    takeDifference_loop debug current addedByID addedByText diff log
      = Some (diff ++ kept, log ++ log') ∧
    kept `sublist_of` current ∧
    (∀ t, t ∈ kept → (Id t ∉ addedByID) ∧ (fingerprint t ∉ addedByText)) ∧
    (∀ t, t ∈ current →
       Id t ∈ addedByID ∨ fingerprint t ∈ addedByText ∨
       ∃ t', t' ∈ kept ∧ (Id t' = Id t ∨ fingerprint t' = fingerprint t)).
Proof.
  revert addedByID addedByText diff log.
  induction current as [|v current IH]; intros addedByID addedByText diff log.
  - exists [], []. rewrite !app_nil_r. cbn. split_and!; [done|done|set_solver|set_solver].
  - cbn [takeDifference_loop]. case_bool_decide as HID.
    { destruct (IH addedByID addedByText diff
                  (log ++ print debug
                     ("[twitter] found a duplicate (same id) from database id:"
                      +:+ pretty (Id v) +:+ ", text:" +:+ Text v +:+ newline)))
        as (kept & log' & -> & Hsub & Hfresh & Hcover).
      eexists kept, _. rewrite <- !(assoc_L (++)). split; [done|].
      split_and!; [by apply sublist_cons|done|].
      intros t [->|Ht]%elem_of_cons; [by left|by apply Hcover]. }
    rewrite getOriginalText_fingerprint. cbn. case_bool_decide as Htext.
    { destruct (IH addedByID addedByText diff
                  ((log ++ logError (parseError v)) ++ print debug
                     ("[twitter] found a duplicate (same original text) from database id:"
                      +:+ pretty (Id v) +:+ ", text:" +:+ Text v +:+ newline)))
        as (kept & log' & -> & Hsub & Hfresh & Hcover).
      eexists kept, _. rewrite <- !(assoc_L (++)). split; [done|].
      split_and!; [by apply sublist_cons|done|].
      intros t [->|Ht]%elem_of_cons; [right; by left|by apply Hcover]. }
    destruct (IH ({[Id v]} ∪ addedByID) ({[fingerprint v]} ∪ addedByText)
                (diff ++ [v]) (log ++ logError (parseError v)))
      as (kept & log' & -> & Hsub & Hfresh & Hcover).
    eexists (v :: kept), _. rewrite <- !(assoc_L (++)). split; [done|].
    split_and!.
    + by apply sublist_skip.
    + intros t [->|Ht]%elem_of_cons; [done|]. apply Hfresh in Ht. set_solver.
    + intros t [->|Ht]%elem_of_cons.
      * right; right. exists v. set_solver.
      * destruct (Hcover t Ht) as [Hin|[Hin|(t' & Ht' & Heq)]].
        -- apply elem_of_union in Hin as [Hin%elem_of_singleton|Hin]; [|by left].
           right; right. exists v. set_solver.
        -- apply elem_of_union in Hin as [Hin%elem_of_singleton|Hin]; [|right; by left].
           right; right. exists v. set_solver.
        -- right; right. exists t'. set_solver.
Qed.

(** C7, as amended: a normalization error on a candidate is logged and does
    not abort the batch, and the candidate is filed under the empty string
    that [getOriginalText] returns with the error (not under its raw text).
    [removeDuplicates] returns, in the order of the batch, one candidate for
    each fingerprint of the batch; [takeDifference] returns, in order, the
    candidates whose identifier and fingerprint are not those of a previous
    tweet, a candidate dropped being matched by a previous tweet or by a
    candidate kept. *)
Theorem C7_filter_on_normalization_error (debug : bool) (previous current : list Tweet) :
  (∀ t, is_Some (parseError t) → fingerprint t = EmptyString) ∧
  (∃ stripped log,
     removeDuplicates debug current = Some (stripped, log) ∧
     stripped `sublist_of` current ∧
     NoDup (fingerprint <$> stripped) ∧
     (∀ t, t ∈ current → ∃ t', t' ∈ stripped ∧ fingerprint t' = fingerprint t) ∧
     (∀ t err, t ∈ current → parseError t = Some err → err ∈ log)) ∧
  (∃ diff log,
     takeDifference debug previous current = Some (diff, log) ∧
     diff `sublist_of` current ∧
     (∀ t p, t ∈ diff → p ∈ previous →
        Id t ≠ Id p ∧ fingerprint t ≠ fingerprint p) ∧
     (∀ t, t ∈ current →
        (∃ p, p ∈ previous ∧ (Id p = Id t ∨ fingerprint p = fingerprint t)) ∨
        (∃ t', t' ∈ diff ∧ (Id t' = Id t ∨ fingerprint t' = fingerprint t))) ∧
     (∀ t err, t ∈ previous → parseError t = Some err → err ∈ log)).
Proof.
  split; [apply fingerprint_malformed|]. split.
  - unfold removeDuplicates.
    destruct (removeDuplicates_loop_spec debug current ∅ [] [])
      as (kept & log' & -> & Hsub & _ & Hnodup & Hcover & Hlog).
    exists kept, log'. split_and!; try done.
    intros t Ht. destruct (Hcover t Ht) as [Hin|Hin]; [|done].
    by apply not_elem_of_empty in Hin.
  - unfold takeDifference.
    destruct (takeDifference_seen_spec previous ∅ ∅ []) as (log1 & -> & Hlog1).
    cbn.
    destruct (takeDifference_loop_spec debug current
                (list_to_set (Id <$> previous) ∪ ∅)
                (list_to_set (fingerprint <$> previous) ∪ ∅) [] log1)
      as (kept & log' & -> & Hsub & Hfresh & Hcover).
    exists kept, (log1 ++ log'). split_and!; try done.
    + intros t p Ht Hp. destruct (Hfresh t Ht) as [HID Htext]. split.
      * intros Heq. apply HID, elem_of_union_l, elem_of_list_to_set,
          list_elem_of_fmap. by exists p.
      * intros Heq. apply Htext, elem_of_union_l, elem_of_list_to_set,
          list_elem_of_fmap. by exists p.
    + intros t Ht. destruct (Hcover t Ht) as [Hin|[Hin|Hin]]; [left|left|by right].
      * apply elem_of_union in Hin as [Hin|Hin]; [|by apply not_elem_of_empty in Hin].
        apply elem_of_list_to_set, list_elem_of_fmap in Hin as (p & Heq & Hp).
        exists p. auto.
      * apply elem_of_union in Hin as [Hin|Hin]; [|by apply not_elem_of_empty in Hin].
        apply elem_of_list_to_set, list_elem_of_fmap in Hin as (p & Heq & Hp).
        exists p. auto.
    + intros t err Ht Herr. apply elem_of_app. left. by eapply Hlog1.
Qed.

Lemma C7_filter_on_normalization_error_witness :
  fingerprint {| Id := 2; Text := "RT @b" |} = EmptyString.
Proof.
  destruct (C7_filter_on_normalization_error false []
              [ {| Id := 1; Text := "RT @a" |}; {| Id := 2; Text := "RT @b" |} ])
    as (Hempty & _).
  apply Hempty. eexists. vm_compute. reflexivity.
Defined.

(** C7, as stated, fails: two candidates with distinct malformed texts are
    both filed under the empty string, and the second is dropped as a
    duplicate of the first; under their raw texts both would be kept. *)
Lemma C7_malformed_candidates_collide :
  let batch := [ {| Id := 1; Text := "RT @a" |}; {| Id := 2; Text := "RT @b" |} ] in
  (∃ log, removeDuplicates false batch = Some ([ {| Id := 1; Text := "RT @a" |} ], log)) ∧
  spec_removeDuplicates batch = Some batch ∧
  fingerprint {| Id := 2; Text := "RT @b" |} = EmptyString ∧
  fingerprint {| Id := 2; Text := "RT @b" |} ≠ "RT @b".
Proof.
  cbn zeta. split; [eexists; vm_compute; reflexivity|].
  split; [vm_compute; reflexivity|]. split; [vm_compute; reflexivity|].
  vm_compute. discriminate.
Qed.

(** ** The relationship store *)

Arguments FormatInt : simpl never.

Ltac msimpl :=
  unfold timeNowUnixNano, tojsonSave, tojsonLoad, osStatNotExist,
    GetFollowersIdsAll, GetFriendsIdsAll, FollowUserId, printDebug,
    logPrintln, logFatalln, timeSleep in *;
  unfold history, emit, getBot, setFollowers, setFriends, panic in *;
  unfold mbind, M_bind, mret, M_ret in *;
  cbn in *.

#[local] Instance sameFirstSeen_refl : Reflexive sameFirstSeen.
Proof. intros users key user ?. eauto. Qed.

#[local] Instance sameFirstSeen_trans : Transitive sameFirstSeen.
Proof.
  intros a b c Hab Hbc key user Hk.
  destruct (Hab key user Hk) as (user' & Hk' & Ht').
  destruct (Hbc key user' Hk') as (user'' & Hk'' & Ht'').
  exists user''. split; [done|congruence].
Qed.

Lemma reconciled_nil (users : twitterUsers) : reconciled [] users users.
Proof.
  split_and!; [done|by intros id ?%elem_of_nil|by left|].
  intros key user' Hk. split; [left; eauto|].
  intros [(user & Hu & Hf)|(id & ?%elem_of_nil & _)]; [congruence|done].
Qed.

Lemma reconciled_app (ids1 ids2 : list Z) (a b c : twitterUsers) :
  reconciled ids1 a b → reconciled ids2 b c → reconciled (ids1 ++ ids2) a c.
Proof.
  intros (Hsame1 & Hin1 & Hins1 & Hf1) (Hsame2 & Hin2 & Hins2 & Hf2).
  split_and!.
  - by etrans.
  - intros id [Hid|Hid]%elem_of_app; [|by apply Hin2].
    destruct (Hin1 id Hid) as [u Hu]. destruct (Hsame2 _ _ Hu) as (u' & -> & _). done.
  - intros key Hk. destruct (Hins2 key Hk) as [Hb|(id & Hid & ->)].
    + destruct (Hins1 key Hb) as [Ha|(id & Hid & ->)]; [by left|].
      right. exists id. split; [apply elem_of_app; by left|done].
    + right. exists id. split; [apply elem_of_app; by right|done].
  - intros key user' Hk. rewrite (Hf2 key user' Hk). split.
    + intros [(ub & Hb & Hfb)|(id & Hid & ->)].
      * apply (Hf1 key ub Hb) in Hfb as [Ha|(id & Hid & ->)]; [by left|].
        right. exists id. split; [apply elem_of_app; by left|done].
      * right. exists id. split; [apply elem_of_app; by right|done].
    + intros [(ua & Ha & Hfa)|(id & [Hid|Hid]%elem_of_app & ->)].
      * destruct (Hsame1 _ _ Ha) as (ub & Hb & _). left. exists ub.
        split; [done|]. apply (Hf1 key ub Hb). left. eauto.
      * destruct (Hin1 id Hid) as [ub Hb]. left. exists ub.
        split; [done|]. apply (Hf1 _ ub Hb). right. eauto.
      * right. eauto.
Qed.

(** One identifier that the map already has: its record is flagged. *)
Lemma reconciled_present (users : twitterUsers) (id : Z) (user : twitterUser) :
  users !! FormatInt id = Some user →
  reconciled [id] users (<[FormatInt id := markFollowed user]> users).
Proof.
  intros Hid. split_and!.
  - intros key u Hk. destruct (decide (FormatInt id = key)) as [<-|Hne].
    + rewrite lookup_insert_eq. simplify_eq. eauto.
    + rewrite lookup_insert_ne by done. eauto.
  - intros id' ->%list_elem_of_singleton. by rewrite lookup_insert_eq.
  - intros key [u Hk]. destruct (decide (FormatInt id = key)) as [<-|Hne].
    + left. eauto.
    + rewrite lookup_insert_ne in Hk by done. left. eauto.
  - intros key u Hk. destruct (decide (FormatInt id = key)) as [<-|Hne].
    + rewrite lookup_insert_eq in Hk. injection Hk as <-. cbn.
      split; [|done]. intros _. right. exists id. by rewrite list_elem_of_singleton.
    + rewrite lookup_insert_ne in Hk by done. split; [left; eauto|].
      intros [(u0 & Hu0 & Hf)|(id' & ->%list_elem_of_singleton & ->)];
        [congruence|done].
Qed.

(** One identifier that the map does not have: a record is inserted. *)
Lemma reconciled_absent (users : twitterUsers) (id now : Z) :
  users !! FormatInt id = None →
  reconciled [id] users (<[FormatInt id := {| Timestamp := now; Follow := true |}]> users).
Proof.
  intros Hid. split_and!.
  - intros key u Hk. rewrite lookup_insert_ne by congruence. eauto.
  - intros id' ->%list_elem_of_singleton. by rewrite lookup_insert_eq.
  - intros key [u Hk]. destruct (decide (FormatInt id = key)) as [<-|Hne].
    + right. exists id. by rewrite list_elem_of_singleton.
    + rewrite lookup_insert_ne in Hk by done. left. eauto.
  - intros key u Hk. destruct (decide (FormatInt id = key)) as [<-|Hne].
    + rewrite lookup_insert_eq in Hk. injection Hk as <-. cbn.
      split; [|done]. intros _. right. exists id. by rewrite list_elem_of_singleton.
    + rewrite lookup_insert_ne in Hk by done. split; [left; eauto|].
      intros [(u0 & Hu0 & Hf)|(id' & ->%list_elem_of_singleton & ->)];
        [congruence|done].
Qed.

(** The loop over the identifiers of a page returns, having called nothing
    but the clock. *)
Lemma reconcileIds_spec (env : Env) (ids : list Z) (users : twitterUsers) (st : St) :
  ∃ users' new,
    reconcileIds env ids users st
      = (Done users', {| bot := bot st; trace := trace st ++ new |}) ∧
    reconciled ids users users' ∧
    Forall (λ e, e = EvNow) new.
Proof.
  revert users st. induction ids as [|id ids IH]; intros users st.
  - exists users, []. rewrite app_nil_r.
    split_and!; [by destruct st|apply reconciled_nil|done].
  - cbn [reconcileIds]. destruct (users !! FormatInt id) as [user|] eqn:Hid.
    + destruct (IH (<[FormatInt id := markFollowed user]> users) st)
        as (users' & new & -> & Hrec & Hnew).
      exists users', new. split_and!; [done| |done].
      apply (reconciled_app [id] ids _ _ _ (reconciled_present _ _ _ Hid) Hrec).
    + msimpl.
      destruct (IH (<[FormatInt id := {| Timestamp := nowUnixNano env (trace st);
                                         Follow := true |}]> users)
                  {| bot := bot st; trace := trace st ++ [EvNow] |})
        as (users' & new & -> & Hrec & Hnew).
      exists users', (EvNow :: new). cbn. rewrite <- (assoc_L (++)). cbn.
      split_and!; [done| |by constructor].
      apply (reconciled_app [id] ids _ _ _ (reconciled_absent _ _ _ Hid) Hrec).
Qed.

Lemma reconcilePages_spec (env : Env) (pages : list (list Z))
    (users : twitterUsers) (st : St) :
  ∃ users' new,
    reconcilePages env pages users st
      = (Done users', {| bot := bot st; trace := trace st ++ new |}) ∧
    reconciled (concat pages) users users' ∧
    Forall (λ e, e = EvNow) new.
Proof.
  revert users st. induction pages as [|v pages IH]; intros users st.
  - exists users, []. rewrite app_nil_r.
    split_and!; [by destruct st|apply reconciled_nil|done].
  - cbn [reconcilePages]. unfold mbind, M_bind.
    destruct (reconcileIds_spec env v users st) as (users1 & new1 & -> & Hrec1 & Hnew1).
    destruct (IH users1 {| bot := bot st; trace := trace st ++ new1 |})
      as (users' & new & -> & Hrec & Hnew).
    exists users', (new1 ++ new). cbn. rewrite <- (assoc_L (++)).
    split_and!; [done| |by apply Forall_app].
    by eapply reconciled_app.
Qed.

(** The flags of a snapshot are all lowered before the remote identifiers
    are read. *)
Lemma reconciled_markUnfollowed (ids : list Z) (users users' : twitterUsers) :
  reconciled ids (markUnfollowed <$> users) users' →
  sameFirstSeen users users' ∧
  insertedFrom ids users users' ∧
  (∀ id, id ∈ ids → is_Some (users' !! FormatInt id)) ∧
  (∀ key user', users' !! key = Some user' →
     Follow user' = true ↔ ∃ id, id ∈ ids ∧ key = FormatInt id).
Proof.
  intros (Hsame & Hin & Hins & Hf). split_and!; [| |done|].
  - intros key user Hk.
    destruct (Hsame key (markUnfollowed user)) as (u' & Hu' & Ht);
      [by rewrite lookup_fmap, Hk|]. eauto.
  - intros key Hk. destruct (Hins key Hk) as [Hold|?]; [left|by right].
    by rewrite lookup_fmap, fmap_is_Some in Hold.
  - intros key user' Hk. rewrite (Hf key user' Hk). split; [|by right].
    intros [(u & Hu & Hfu)|?]; [|done].
    rewrite lookup_fmap in Hu. by destruct (users !! key); simplify_eq/=.
Qed.

(** One reconciliation: it returns, the time at which an identifier was
    first seen is kept, the identifiers added are remote ones, and a record
    is flagged exactly when its identifier is a remote one. *)
Lemma reconcile_spec (env : Env) (users : twitterUsers) (pages : list (list Z)) (st : St) :
  ∃ users' new,
    reconcile env users pages st
      = (Done users', {| bot := bot st; trace := trace st ++ new |}) ∧
    sameFirstSeen users users' ∧
    insertedFrom (concat pages) users users' ∧
    (∀ id, id ∈ concat pages → is_Some (users' !! FormatInt id)) ∧
    (∀ key user', users' !! key = Some user' →
       Follow user' = true ↔ ∃ id, id ∈ concat pages ∧ key = FormatInt id) ∧
    Forall (λ e, e = EvNow) new.
Proof.
  unfold reconcile.
  destruct (reconcilePages_spec env pages (markUnfollowed <$> users) st)
    as (users' & new & -> & Hrec & Hnew).
  apply reconciled_markUnfollowed in Hrec as (? & ? & ? & ?).
  exists users', new. done.
Qed.

Lemma insertedFrom_app (ids1 ids2 : list Z) (a b c : twitterUsers) :
  insertedFrom ids1 a b → insertedFrom ids2 b c → insertedFrom (ids1 ++ ids2) a c.
Proof.
  intros Hab Hbc key Hk. destruct (Hbc key Hk) as [Hb|(id & Hid & ->)].
  - destruct (Hab key Hb) as [Ha|(id & Hid & ->)]; [by left|].
    right. exists id. split; [apply elem_of_app; by left|done].
  - right. exists id. split; [apply elem_of_app; by right|done].
Qed.

(** C5: reconciling a snapshot any number of times, whatever the remote
    side sends each time, always returns; every identifier of the snapshot
    is still there with the time at which it was first seen, and the
    identifiers added are remote ones: nothing else changes but the flags. *)
Theorem C5_reconcile_keeps_firstSeen (env : Env) (users : twitterUsers)
    (streams : list (list (list Z))) (st : St) :
  ∃ users' new,
    reconcileMany env users streams st
      = (Done users', {| bot := bot st; trace := trace st ++ new |}) ∧
    sameFirstSeen users users' ∧
    insertedFrom (concat (concat streams)) users users'.
Proof.
  revert users st. induction streams as [|pages streams IH]; intros users st.
  - exists users, []. rewrite app_nil_r. split_and!; [by destruct st|done|by left].
  - cbn [reconcileMany]. unfold mbind, M_bind.
    destruct (reconcile_spec env users pages st)
      as (users1 & new1 & -> & Hsame1 & Hins1 & _).
    destruct (IH users1 {| bot := bot st; trace := trace st ++ new1 |})
      as (users' & new & -> & Hsame & Hins).
    exists users', (new1 ++ new). cbn. rewrite <- (assoc_L (++)).
    split_and!; [done|by etrans|]. rewrite concat_app.
    by eapply insertedFrom_app.
Qed.

(** ** [updateFollowers] and [updateFriends] *)

(** The runs of [updateUsers]: the file is created if it is missing, then
    loaded; if the load fails its error is returned; otherwise the snapshot
    loaded is reconciled and saved, and the field is assigned only if the
    save succeeds. *)
Lemma updateUsers_spec (env : Env) (path : string) (fetch : M (list (list Z)))
    (assign : twitterUsers → M unit) (ev : event) (st : St) :
  (∀ st0, ∃ pages,
     fetch st0 = (Done pages, {| bot := bot st0; trace := trace st0 ++ [ev] |})) →
  ∃ before,
    (before = [EvStat path] ∨ before = [EvStat path; EvSave path ∅]) ∧
    match loadResult env (trace st ++ before) path with
    | inr err =>
        updateUsers env path fetch assign st
          = (Done (Some err),
             {| bot := bot st; trace := (trace st ++ before) ++ [EvLoad path] |})
    | inl loaded =>
        ∃ pages users' new,
          reconcile env loaded pages
            {| bot := bot st; trace := (trace st ++ before) ++ [EvLoad path; ev] |}
            = (Done users',
               {| bot := bot st;
                  trace := ((trace st ++ before) ++ [EvLoad path; ev]) ++ new |}) ∧
          updateUsers env path fetch assign st =
          let tr := ((trace st ++ before) ++ [EvLoad path; ev]) ++ new in
          match saveResult env tr path users' with
          | Some err =>
              (Done (Some err), {| bot := bot st; trace := tr ++ [EvSave path users'] |})
          | None =>
              (assign users';; mret None)
                {| bot := bot st; trace := tr ++ [EvSave path users'] |}
          end
    end.
Proof.
  intros Hfetch.
  exists (if statNotExist env (trace st) path
          then [EvStat path; EvSave path ∅] else [EvStat path]).
  split; [destruct (statNotExist env (trace st) path); auto|].
  set (before := if statNotExist env (trace st) path
                 then [EvStat path; EvSave path ∅] else [EvStat path]).
  assert (Hstart : ∀ k : M (option error),
    (notExist ← osStatNotExist env path;
     (if (notExist : bool) then tojsonSave env path ∅;; mret () else mret () : M unit);;
     k) st = k {| bot := bot st; trace := trace st ++ before |}).
  { intros k. subst before. msimpl.
    destruct (statNotExist env (trace st) path); cbn; [|done].
    by rewrite <- (assoc_L (++)). }
  unfold updateUsers. cbn zeta. rewrite Hstart. clear Hstart.
  generalize (trace st ++ before). intros tr1. msimpl.
  destruct (loadResult env tr1 path) as [loaded|err]; [|done].
  destruct (Hfetch {| bot := bot st; trace := tr1 ++ [EvLoad path] |})
    as (pages & ->). cbn. rewrite <- (assoc_L (++)). cbn.
  destruct (reconcile_spec env loaded pages
              {| bot := bot st; trace := tr1 ++ [EvLoad path; ev] |})
    as (users' & new & Hrec & _).
  exists pages, users', new. split; [done|]. rewrite Hrec. cbn.
  by destruct (saveResult env _ path users').
Qed.

(** A run of [updateUsers] whose last call is a save that failed returns
    the error of the save and leaves the bot as it was; so does any run
    that returns an error. *)
Lemma updateUsers_failure (env : Env) (path : string) (fetch : M (list (list Z)))
    (assign : twitterUsers → M unit) (ev : event) (st : St) :
  (∀ st0, ∃ pages,
     fetch st0 = (Done pages, {| bot := bot st0; trace := trace st0 ++ [ev] |})) →
  (∀ users st0, ∃ b,
     assign users st0 = (Done (), {| bot := b; trace := trace st0 |})) →
  ∃ r st',
    updateUsers env path fetch assign st = (Done r, st') ∧
    (∀ tr users e,
       trace st' = tr ++ [EvSave path users] →
       saveResult env tr path users = Some e →
       r = Some e ∧ bot st' = bot st) ∧
    (is_Some r → bot st' = bot st).
Proof.
  intros Hfetch Hassign.
  destruct (updateUsers_spec env path fetch assign ev st Hfetch) as (before & _ & Hrun).
  destruct (loadResult env (trace st ++ before) path) as [loaded|err].
  - destruct Hrun as (pages & users' & new & _ & ->). cbn zeta.
    destruct (saveResult env _ path users') as [err|] eqn:Hsave.
    + eexists _, _. split; [done|]. cbn. split; [|done].
      intros tr users e [Htr [= Hu]]%app_inj_tail Hsave'. split; [congruence|done].
    + unfold mbind, M_bind.
      destruct (Hassign users' {| bot := bot st;
                  trace := (((trace st ++ before) ++ [EvLoad path; ev]) ++ new)
                           ++ [EvSave path users'] |}) as (b & ->).
      eexists _, _. split; [done|]. cbn. split; [|by intros [? ?]].
      intros tr users e [Htr [= Hu]]%app_inj_tail Hsave'. congruence.
  - rewrite Hrun. eexists _, _. split; [done|]. cbn. split; [|done].
    by intros tr users e [_ ?]%app_inj_tail.
Qed.

Lemma GetFollowersIdsAll_run (env : Env) (st : St) :
  ∃ pages, GetFollowersIdsAll env st
    = (Done pages, {| bot := bot st; trace := trace st ++ [EvGetFollowersIdsAll] |}).
Proof. by eexists. Qed.

Lemma GetFriendsIdsAll_run (env : Env) (st : St) :
  ∃ pages, GetFriendsIdsAll env st
    = (Done pages, {| bot := bot st; trace := trace st ++ [EvGetFriendsIdsAll] |}).
Proof. by eexists. Qed.

Lemma setFollowers_run (users : twitterUsers) (st : St) :
  ∃ b, setFollowers users st = (Done (), {| bot := b; trace := trace st |}).
Proof. by eexists. Qed.

Lemma setFriends_run (users : twitterUsers) (st : St) :
  ∃ b, setFriends users st = (Done (), {| bot := b; trace := trace st |}).
Proof. by eexists. Qed.

(** C6: [updateFollowers] and [updateFriends] return; when the run ends on
    a save that the environment answers with an error, that error is what
    the caller gets, and the bot, with its two snapshots, is as it was
    before the call. *)
Theorem C6_save_failure_keeps_snapshot (env : Env) (st : St) :
  (∃ r st',
     updateFollowers env st = (Done r, st') ∧
     ∀ tr users e,
       trace st' = tr ++ [EvSave (followersPath (bot st)) users] →
       saveResult env tr (followersPath (bot st)) users = Some e →
       r = Some e ∧ bot st' = bot st) ∧
  (∃ r st',
     updateFriends env st = (Done r, st') ∧
     ∀ tr users e,
       trace st' = tr ++ [EvSave (friendsPath (bot st)) users] →
       saveResult env tr (friendsPath (bot st)) users = Some e →
       r = Some e ∧ bot st' = bot st).
Proof.
  split.
  - destruct (updateUsers_failure env (followersPath (bot st)) (GetFollowersIdsAll env)
                setFollowers EvGetFollowersIdsAll st
                (GetFollowersIdsAll_run env) setFollowers_run)
      as (r & st' & Hrun & Hfail & _).
    exists r, st'. split; [|done]. unfold updateFollowers. by msimpl.
  - destruct (updateUsers_failure env (friendsPath (bot st)) (GetFriendsIdsAll env)
                setFriends EvGetFriendsIdsAll st
                (GetFriendsIdsAll_run env) setFriends_run)
      as (r & st' & Hrun & Hfail & _).
    exists r, st'. split; [|done]. unfold updateFriends. by msimpl.
Qed.

Lemma C6_save_failure_keeps_snapshot_witness :
  ∃ st' reconciledUsers,
    updateFollowers follower7LeftDiskFull stFollower7 = (Done (Some "disk full"), st') ∧
    trace st' = [EvStat "followers.json"; EvLoad "followers.json";
                 EvGetFollowersIdsAll; EvNow;
                 EvSave "followers.json" reconciledUsers] ∧
    reconciledUsers !! "7" = Some {| Timestamp := 1; Follow := false |} ∧
    reconciledUsers !! "8" = Some {| Timestamp := 3; Follow := true |} ∧
    reconciledUsers ≠ followers (bot stFollower7) ∧
    bot st' = bot stFollower7 ∧
    followers (bot st') = {[ "7" := {| Timestamp := 1; Follow := true |} ]}.
Proof.
  destruct (C6_save_failure_keeps_snapshot follower7LeftDiskFull stFollower7)
    as [(r & st' & Hrun & Hfail) _].
  vm_compute in Hrun. injection Hrun as <- <-.
  eexists _, _. split; [vm_compute; reflexivity|].
  split; [reflexivity|]. split; [vm_compute; reflexivity|].
  split; [vm_compute; reflexivity|].
  split.
  { intros Heq. apply (f_equal (λ users : twitterUsers, users !! "8")) in Heq.
    vm_compute in Heq. discriminate. }
  match goal with
  | |- bot ?st = _ ∧ _ =>
      assert (Hbot : bot st = bot stFollower7);
        [|split; [exact Hbot | rewrite Hbot; reflexivity]]
  end.
  refine (proj2 (Hfail [EvStat "followers.json"; EvLoad "followers.json";
                        EvGetFollowersIdsAll; EvNow] _ "disk full" _ _)); reflexivity.
Defined.

(** A successful [updateFollowers] or [updateFriends] assigns the snapshot
    loaded from the file, reconciled: the identifiers of the file keep the
    time at which they were first seen. *)
Lemma updateUsers_keeps_firstSeen (env : Env) (path : string)
    (fetch : M (list (list Z))) (assign : twitterUsers → M unit)
    (field : TwitterBot → twitterUsers) (ev : event) (st st' : St) :
  (∀ st0, ∃ pages,
     fetch st0 = (Done pages, {| bot := bot st0; trace := trace st0 ++ [ev] |})) →
  (∀ users st0, ∃ b,
     assign users st0 = (Done (), {| bot := b; trace := trace st0 |}) ∧
     field b = users) →
  updateUsers env path fetch assign st = (Done None, st') →
  ∃ before loaded,
    loadResult env (trace st ++ before) path = inl loaded ∧
    sameFirstSeen loaded (field (bot st')).
Proof.
  intros Hfetch Hassign Hrun.
  destruct (updateUsers_spec env path fetch assign ev st Hfetch)
    as (before & _ & Hspec).
  exists before.
  destruct (loadResult env (trace st ++ before) path) as [loaded|err];
    [|congruence].
  exists loaded. split; [done|].
  destruct Hspec as (pages & users' & new & Hrec & Hrun').
  rewrite Hrun in Hrun'. cbn zeta in Hrun'.
  destruct (reconcile_spec env loaded pages
              {| bot := bot st; trace := (trace st ++ before) ++ [EvLoad path; ev] |})
    as (users'' & new' & Hrec' & Hsame & _).
  rewrite Hrec in Hrec'. injection Hrec' as <- _.
  destruct (saveResult env _ path users'); [done|].
  unfold mbind, M_bind in Hrun'.
  destruct (Hassign users' {| bot := bot st;
              trace := (((trace st ++ before) ++ [EvLoad path; ev]) ++ new)
                       ++ [EvSave path users'] |}) as (b & Hb & Hfield).
  rewrite Hb in Hrun'. injection Hrun' as ->. cbn. by rewrite Hfield.
Qed.

Lemma updateFollowers_keeps_firstSeen (env : Env) (st st' : St) :
  updateFollowers env st = (Done None, st') →
  ∃ before loaded,
    loadResult env (trace st ++ before) (followersPath (bot st)) = inl loaded ∧
    sameFirstSeen loaded (followers (bot st')).
Proof.
  intros Hrun.
  apply (updateUsers_keeps_firstSeen env (followersPath (bot st))
           (GetFollowersIdsAll env) setFollowers followers EvGetFollowersIdsAll);
    [apply GetFollowersIdsAll_run|by eexists|done].
Qed.

Lemma updateFriends_keeps_firstSeen (env : Env) (st st' : St) :
  updateFriends env st = (Done None, st') →
  ∃ before loaded,
    loadResult env (trace st ++ before) (friendsPath (bot st)) = inl loaded ∧
    sameFirstSeen loaded (friends (bot st')).
Proof.
  intros Hrun.
  apply (updateUsers_keeps_firstSeen env (friendsPath (bot st))
           (GetFriendsIdsAll env) setFriends friends EvGetFriendsIdsAll);
    [apply GetFriendsIdsAll_run|by eexists|done].
Qed.

(** ** [addFriend] and [unfollowFriend] *)

(** [addFriend] records the friend in memory, saves, and exits the process
    if the save fails. *)
Lemma addFriend_run (env : Env) (id : Z) (st : St) :
  let users := <[FormatInt id := {| Timestamp := nowUnixNano env (trace st);
                                    Follow := true |}]> (friends (bot st)) in
  let b := {| followersPath := followersPath (bot st);
              followers := followers (bot st);
              friendsPath := friendsPath (bot st);
              friends := users;
              debug := debug (bot st) |} in
  let tr := trace st ++ [EvNow] in
  addFriend env id st =
  match saveResult env tr (friendsPath (bot st)) users with
  | Some err =>
      (Fatal err,
       {| bot := b; trace := (tr ++ [EvSave (friendsPath (bot st)) users]) ++ [EvLog err] |})
  | None => (Done (), {| bot := b; trace := tr ++ [EvSave (friendsPath (bot st)) users] |})
  end.
Proof.
  unfold addFriend. msimpl.
  by destruct (saveResult env _ (friendsPath (bot st)) _).
Qed.

(** [unfollowFriend] panics on an identifier that is not recorded;
    otherwise it lowers the flag in memory, saves, and exits the process
    if the save fails. *)
Lemma unfollowFriend_run (env : Env) (id : Z) (st : St) :
  unfollowFriend env id st =
  match friends (bot st) !! FormatInt id with
  | None => (Panic, st)
  | Some user =>
      let users := <[FormatInt id := markUnfollowed user]> (friends (bot st)) in
      let b := {| followersPath := followersPath (bot st);
                  followers := followers (bot st);
                  friendsPath := friendsPath (bot st);
                  friends := users;
                  debug := debug (bot st) |} in
      match saveResult env (trace st) (friendsPath (bot st)) users with
      | Some err =>
          (Fatal err,
           {| bot := b;
              trace := (trace st ++ [EvSave (friendsPath (bot st)) users]) ++ [EvLog err] |})
      | None =>
          (Done (), {| bot := b; trace := trace st ++ [EvSave (friendsPath (bot st)) users] |})
      end
  end.
Proof.
  unfold unfollowFriend. msimpl.
  destruct (friends (bot st) !! FormatInt id) as [user|]; [|done]. cbn.
  by destruct (saveResult env _ (friendsPath (bot st)) _).
Qed.

(** C9, as amended: of the operations that change a snapshot, the
    reconciliations [updateFollowers] and [updateFriends] return to their
    caller the error of a failed save; [addFriend] and [unfollowFriend] do
    not return when their save fails: they end the process with
    [log.Fatalln], the change being already made in memory. *)
Theorem C9_save_failure (env : Env) (id : Z) (st : St) :
  (∃ r st',
     updateFollowers env st = (Done r, st') ∧
     ∀ tr users e,
       trace st' = tr ++ [EvSave (followersPath (bot st)) users] →
       saveResult env tr (followersPath (bot st)) users = Some e →
       r = Some e) ∧
  (∃ r st',
     updateFriends env st = (Done r, st') ∧
     ∀ tr users e,
       trace st' = tr ++ [EvSave (friendsPath (bot st)) users] →
       saveResult env tr (friendsPath (bot st)) users = Some e →
       r = Some e) ∧
  (∀ e,
     saveResult env (trace st ++ [EvNow]) (friendsPath (bot st))
       (<[FormatInt id := {| Timestamp := nowUnixNano env (trace st); Follow := true |}]>
          (friends (bot st))) = Some e →
     ∃ st', addFriend env id st = (Fatal e, st') ∧
            is_Some (friends (bot st') !! FormatInt id)) ∧
  (∀ user e,
     friends (bot st) !! FormatInt id = Some user →
     saveResult env (trace st) (friendsPath (bot st))
       (<[FormatInt id := markUnfollowed user]> (friends (bot st))) = Some e →
     ∃ st', unfollowFriend env id st = (Fatal e, st') ∧
            friends (bot st') !! FormatInt id = Some (markUnfollowed user)).
Proof.
  split_and!.
  - destruct (updateUsers_failure env (followersPath (bot st)) (GetFollowersIdsAll env)
                setFollowers EvGetFollowersIdsAll st
                (GetFollowersIdsAll_run env) setFollowers_run)
      as (r & st' & Hrun & Hfail & _).
    exists r, st'. split; [unfold updateFollowers; by msimpl|].
    intros tr users e Htr Hsave. by destruct (Hfail tr users e Htr Hsave).
  - destruct (updateUsers_failure env (friendsPath (bot st)) (GetFriendsIdsAll env)
                setFriends EvGetFriendsIdsAll st
                (GetFriendsIdsAll_run env) setFriends_run)
      as (r & st' & Hrun & Hfail & _).
    exists r, st'. split; [unfold updateFriends; by msimpl|].
    intros tr users e Htr Hsave. by destruct (Hfail tr users e Htr Hsave).
  - intros e Hsave. rewrite addFriend_run. cbn zeta. rewrite Hsave.
    eexists. split; [done|]. cbn. by rewrite lookup_insert_eq.
  - intros user e Hid Hsave. rewrite unfollowFriend_run, Hid. cbn zeta.
    rewrite Hsave. eexists. split; [done|]. cbn. by rewrite lookup_insert_eq.
Qed.

Lemma C9_save_failure_witness :
  ∃ st', addFriend failingDisk 7 st0 = (Fatal "disk full", st') ∧
         is_Some (friends (bot st') !! FormatInt 7).
Proof.
  destruct (C9_save_failure failingDisk 7 st0) as (_ & _ & Hadd & _).
  apply Hadd. reflexivity.
Defined.

(** C9, as stated, fails: when the save of [addFriend] fails, the caller
    gets no error, for the call does not return: the process exits. *)
Lemma C9_addFriend_exits :
  saveResult failingDisk (trace st0 ++ [EvNow]) (friendsPath (bot st0))
    (<[FormatInt 7 := {| Timestamp := 0; Follow := true |}]> (friends (bot st0)))
    = Some "disk full" ∧
  (addFriend failingDisk 7 st0).1 = Fatal "disk full" ∧
  ∀ r, (addFriend failingDisk 7 st0).1 ≠ Done r.
Proof.
  split; [reflexivity|]. split; [vm_compute; reflexivity|].
  intros r. vm_compute. discriminate.
Qed.

(** ** [isFollower] and the follow flow *)

Lemma FormatInt_inj (id id' : Z) : FormatInt id = FormatInt id' → id = id'.
Proof. unfold FormatInt. apply (inj pretty). Qed.

Lemma isFollower_run (id : Z) (st : St) :
  isFollower id st
  = (Done (bool_decide (is_Some (followers (bot st) !! FormatInt id))), st).
Proof. done. Qed.

Lemma getFriend_run (id : Z) (st : St) :
  getFriend id st = (Done (friends (bot st) !! FormatInt id), st).
Proof.
  unfold getFriend. msimpl.
  by destruct (friends (bot st) !! FormatInt id) as [[timestamp follow]|].
Qed.

(** The flow passes over an identifier that is a key of the friends or of
    the followers. *)
Lemma followAll_tracked (env : Env) (id : Z) (ids : list Z)
    (sleepPolicy : option SleepPolicy) (st : St) :
  is_Some (friends (bot st) !! FormatInt id) ∨
  is_Some (followers (bot st) !! FormatInt id) →
  followAll env (id :: ids) sleepPolicy st = followAll env ids sleepPolicy st.
Proof.
  intros Htracked. cbn [followAll]. unfold mbind at 1, M_bind at 1.
  rewrite getFriend_run. unfold mbind at 1, M_bind at 1.
  case_bool_decide as Hfriend; [done|].
  rewrite isFollower_run.
  destruct Htracked as [?|Hfollower]; [done|].
  by rewrite bool_decide_eq_true_2.
Qed.

(** C10: [isFollower] tests the presence of the key only.  It answers
    [true] for every identifier recorded in the followers, whatever the
    flag of the record; a reconciliation keeps the record of a follower that
    the remote side no longer reports, with its flag lowered; and the follow
    flow passes over every identifier recorded in the followers. *)
Theorem C10_isFollower_key_presence (env : Env) (id : Z) (st : St) :
  (isFollower id st
   = (Done (bool_decide (is_Some (followers (bot st) !! FormatInt id))), st)) ∧
  (∀ user,
     followers (bot st) !! FormatInt id = Some user →
     isFollower id st = (Done true, st) ∧
     ∀ ids sleepPolicy,
       followAll env (id :: ids) sleepPolicy st = followAll env ids sleepPolicy st) ∧
  (∀ (users : twitterUsers) pages user st1,
     users !! FormatInt id = Some user →
     id ∉ concat pages →
     ∃ users' st1' user',
       reconcile env users pages st1 = (Done users', st1') ∧
       users' !! FormatInt id = Some user' ∧
       Follow user' = false ∧
       Timestamp user' = Timestamp user).
Proof.
  split; [apply isFollower_run|]. split.
  - intros user Hid. split.
    + rewrite isFollower_run, Hid. by rewrite bool_decide_eq_true_2.
    + intros ids sleepPolicy. apply followAll_tracked. right. by rewrite Hid.
  - intros users pages user st1 Hid Hpages.
    destruct (reconcile_spec env users pages st1)
      as (users' & new & Hrun & Hsame & _ & _ & Hflag & _).
    destruct (Hsame _ _ Hid) as (user' & Hid' & Htime).
    eexists users', _, user'. split_and!; [done|done| |done].
    apply not_true_is_false. intros Hf.
    apply (Hflag _ _ Hid') in Hf as (id' & Hin & ->%FormatInt_inj). done.
Qed.

Lemma C10_isFollower_key_presence_witness :
  ∃ st1,
    updateFollowers follower7Left st0 = (Done None, st1) ∧
    followers (bot st1) !! FormatInt 7 = Some {| Timestamp := 1; Follow := false |} ∧
    isFollower 7 st1 = (Done true, st1) ∧
    followAll follower7Left [7] None st1 = (Done (), st1).
Proof.
  eexists. split; [vm_compute; reflexivity|]. split; [vm_compute; reflexivity|].
  match goal with |- isFollower _ ?st = _ ∧ _ =>
    destruct (C10_isFollower_key_presence follower7Left 7 st) as (_ & Hskip & _);
    destruct (Hskip {| Timestamp := 1; Follow := false |}) as [Hfollower Hflow]
  end.
  - vm_compute. reflexivity.
  - split; [exact Hfollower|]. rewrite Hflow. reflexivity.
Defined.

(** ** The calls of [FollowUserId] in the follow flow *)

Lemma followCalls_app (id : Z) (a b : list event) :
  followCalls id (a ++ b) = (followCalls id a + followCalls id b)%nat.
Proof. unfold followCalls. by rewrite filter_app, length_app. Qed.

Lemma occurrences_app (id : Z) (a b : list Z) :
  occurrences id (a ++ b) = (occurrences id a + occurrences id b)%nat.
Proof. unfold occurrences. by rewrite filter_app, length_app. Qed.

Lemma callsAtMost_ret {A : Type} (a : A) : callsAtMost [] (mret a).
Proof. intros st. exists []. by rewrite app_nil_r. Qed.

Lemma callsAtMost_bind {A B : Type} (ids1 ids2 : list Z) (m : M A) (f : A → M B) :
  callsAtMost ids1 m → (∀ a, callsAtMost ids2 (f a)) →
  callsAtMost (ids1 ++ ids2) (m ≫= f).
Proof.
  intros Hm Hf st. unfold mbind, M_bind.
  destruct (Hm st) as (new1 & Htr1 & Hn1).
  destruct (m st) as [[a|line|] st1]; cbn in Htr1.
  - destruct (Hf a st1) as (new2 & Htr2 & Hn2).
    exists (new1 ++ new2). split; [by rewrite Htr2, Htr1, (assoc_L (++))|].
    intros id. rewrite followCalls_app, occurrences_app.
    specialize (Hn1 id). specialize (Hn2 id). lia.
  - exists new1. split; [done|].
    intros id. rewrite occurrences_app. specialize (Hn1 id). lia.
  - exists new1. split; [done|].
    intros id. rewrite occurrences_app. specialize (Hn1 id). lia.
Qed.

Lemma callsAtMost_mono {A : Type} (ids ids' : list Z) (m : M A) :
  (∀ id, (occurrences id ids <= occurrences id ids')%nat) →
  callsAtMost ids m → callsAtMost ids' m.
Proof.
  intros Hle Hm st. destruct (Hm st) as (new & Htr & Hn).
  exists new. split; [done|]. intros id. specialize (Hn id). specialize (Hle id). lia.
Qed.

(** A computation that leaves the trace as it is, or adds one event that is
    not a call of [FollowUserId]. *)
Lemma callsAtMost_silent {A : Type} (m : M A) :
  (∀ st, trace (m st).2 = trace st) → callsAtMost [] m.
Proof. intros Hm st. exists []. by rewrite app_nil_r, Hm. Qed.

Lemma callsAtMost_one {A : Type} (m : M A) (e : event) :
  (∀ id, e ≠ EvFollowUserId id) →
  (∀ st, trace (m st).2 = trace st ++ [e]) → callsAtMost [] m.
Proof.
  intros He Hm st. exists [e]. split; [done|]. intros id.
  unfold followCalls. rewrite filter_cons_False by apply He. done.
Qed.

Lemma callsAtMost_emit (e : event) :
  (∀ id, e ≠ EvFollowUserId id) → callsAtMost [] (emit e).
Proof. intros He. by apply (callsAtMost_one _ e). Qed.

Lemma callsAtMost_logFatalln {A : Type} (line : string) :
  callsAtMost [] (logFatalln (A:=A) line).
Proof. by apply (callsAtMost_one _ (EvLog line)). Qed.

Lemma callsAtMost_tojsonSave (env : Env) (path : string) (users : twitterUsers) :
  callsAtMost [] (tojsonSave env path users).
Proof. by apply (callsAtMost_one _ (EvSave path users)). Qed.

Lemma callsAtMost_timeNowUnixNano (env : Env) : callsAtMost [] (timeNowUnixNano env).
Proof. by apply (callsAtMost_one _ EvNow). Qed.

Lemma callsAtMost_FollowUserId (env : Env) (id : Z) :
  callsAtMost [id] (FollowUserId env id).
Proof.
  intros st. exists [EvFollowUserId id]. split; [done|]. intros id'.
  unfold followCalls, occurrences.
  destruct (decide (id = id')) as [->|Hne].
  - by rewrite !filter_cons_True.
  - rewrite !filter_cons_False by congruence. done.
Qed.

Create HintDb calls.
#[local] Hint Resolve callsAtMost_ret callsAtMost_logFatalln callsAtMost_tojsonSave
  callsAtMost_timeNowUnixNano : calls.
#[local] Hint Extern 1 (callsAtMost [] (emit _)) =>
  apply callsAtMost_emit; discriminate : calls.
#[local] Hint Extern 1 (callsAtMost [] (logPrintln _)) =>
  apply callsAtMost_emit; discriminate : calls.
#[local] Hint Extern 1 (callsAtMost [] (timeSleep _)) =>
  apply callsAtMost_emit; discriminate : calls.
#[local] Hint Extern 1 (callsAtMost [] getBot) =>
  by apply callsAtMost_silent : calls.
#[local] Hint Extern 1 (callsAtMost [] (setFriends _)) =>
  by apply callsAtMost_silent : calls.
#[local] Hint Extern 2 (callsAtMost [] (_ ≫= _)) =>
  apply (callsAtMost_bind [] []); [|intros ?] : calls.
#[local] Hint Extern 3 (callsAtMost [] (match ?x with _ => _ end)) =>
  destruct x : calls.

Lemma callsAtMost_addFriend (env : Env) (id : Z) : callsAtMost [] (addFriend env id).
Proof. unfold addFriend. auto 20 with calls. Qed.

Lemma callsAtMost_printDebug (text : string) : callsAtMost [] (printDebug text).
Proof. unfold printDebug. auto 20 with calls. Qed.

Lemma callsAtMost_controlledSleep (sleepPolicy : option SleepPolicy) :
  callsAtMost [] (controlledSleep sleepPolicy).
Proof. unfold controlledSleep. auto 20 with calls. Qed.

Lemma callsAtMost_checkUnableToFollowAtThisTime (err : option error) :
  callsAtMost [] (checkUnableToFollowAtThisTime err).
Proof. unfold checkUnableToFollowAtThisTime. auto 20 with calls. Qed.

Lemma callsAtMost_checkBotRestriction (err : option error) :
  callsAtMost [] (checkBotRestriction err).
Proof. unfold checkBotRestriction. auto 20 with calls. Qed.

#[local] Hint Resolve callsAtMost_addFriend callsAtMost_printDebug
  callsAtMost_controlledSleep callsAtMost_checkUnableToFollowAtThisTime
  callsAtMost_checkBotRestriction : calls.

Lemma callsAtMost_getFriend (id : Z) : callsAtMost [] (getFriend id).
Proof. apply callsAtMost_silent. intros st. by rewrite getFriend_run. Qed.

Lemma callsAtMost_isFollower (id : Z) : callsAtMost [] (isFollower id).
Proof. by apply callsAtMost_silent. Qed.

(** What [followAll] does once the follow of [id] was tried, with the rest
    of the identifiers still to come. *)
Lemma callsAtMost_after_follow (env : Env) (id : Z) (ids : list Z)
    (sleepPolicy : option SleepPolicy) (user : User) (err : option error) :
  callsAtMost ids (followAll env ids sleepPolicy) →
  callsAtMost ids
    (failed ← match err with
              | Some _ =>
                  unable ← checkUnableToFollowAtThisTime err; mret (negb unable)
              | None => mret false
              end;
     if (failed : bool) then
       checkBotRestriction err;;
       printDebug ("[twitter] failed to follow user (id:" +:+ pretty (UserId user)
                   +:+ ", name:" +:+ Name user +:+ "), error: "
                   +:+ default EmptyString err +:+ newline);;
       followAll env ids sleepPolicy
     else
       addFriend env id;;
       logPrintln ("[twitter] following (id:" +:+ pretty (UserId user)
                   +:+ ", name:" +:+ Name user +:+ ")" +:+ newline);;
       controlledSleep sleepPolicy;;
       followAll env ids sleepPolicy).
Proof.
  intros IH.
  apply (callsAtMost_bind [] ids).
  { destruct err; auto 20 with calls. }
  intros [|].
  - apply (callsAtMost_bind [] ids); [auto with calls|intros _].
    apply (callsAtMost_bind [] ids); [auto with calls|intros _]. done.
  - apply (callsAtMost_bind [] ids); [auto with calls|intros _].
    apply (callsAtMost_bind [] ids); [auto with calls|intros _].
    apply (callsAtMost_bind [] ids); [auto with calls|intros _]. done.
Qed.

(** The flow calls [FollowUserId] at most once for each identifier it is
    given. *)
Lemma callsAtMost_followAll (env : Env) (ids : list Z)
    (sleepPolicy : option SleepPolicy) :
  callsAtMost ids (followAll env ids sleepPolicy).
Proof.
  induction ids as [|id ids IH]; [apply callsAtMost_ret|].
  cbn [followAll].
  apply (callsAtMost_bind [] (id :: ids)); [apply callsAtMost_getFriend|intros friend].
  apply (callsAtMost_bind [] (id :: ids)).
  { case_bool_decide; [apply callsAtMost_ret|apply callsAtMost_isFollower]. }
  intros [|].
  - eapply callsAtMost_mono; [|exact IH]. intros id'.
    change (id :: ids) with ([id] ++ ids). rewrite occurrences_app. lia.
  - apply (callsAtMost_bind [id] ids); [apply callsAtMost_FollowUserId|].
    intros [user err]. by apply callsAtMost_after_follow.
Qed.

(** C8, as amended: when the follow of an identifier is refused with the
    message that no more people can be followed at this time, the flow logs
    it and sleeps for 15 minutes; in what it does next it calls
    [FollowUserId] at most once for each identifier still to come, so the
    follow of the refused identifier is not tried again. *)
Theorem C8_rate_limited_no_retry (env : Env) (id : Z) (ids : list Z)
    (sleepPolicy : option SleepPolicy) (st : St) (user : User) (e : error) :
  friends (bot st) !! FormatInt id = None →
  followers (bot st) !! FormatInt id = None →
  followUserId env (trace st) id = (user, Some e) →
  Contains e unableToFollowText = true →
  ∃ rest,
    trace (followAll env (id :: ids) sleepPolicy st).2
    = trace st
      ++ [EvFollowUserId id;
          EvLog ("unable to follow at this time, waiting 15min..., " +:+ e);
          EvSleep fifteenMinutes]
      ++ rest ∧
    ∀ id', (followCalls id' rest <= occurrences id' ids)%nat.
Proof.
  intros Hfriend Hfollower Hfollow Hunable.
  cbn [followAll]. unfold mbind at 1, M_bind at 1. rewrite getFriend_run, Hfriend.
  unfold mbind at 1, M_bind at 1. rewrite bool_decide_eq_false_2 by by intros [? ?].
  rewrite isFollower_run, Hfollower.
  rewrite bool_decide_eq_false_2 by by intros [? ?].
  unfold mbind at 1, M_bind at 1.
  replace (FollowUserId env id st)
    with (Done (user, Some e),
          {| bot := bot st; trace := trace st ++ [EvFollowUserId id] |})
    by (unfold FollowUserId; msimpl; by rewrite Hfollow).
  set (after := {| bot := bot st;
                   trace := trace st ++ [EvFollowUserId id;
                     EvLog ("unable to follow at this time, waiting 15min..., " +:+ e);
                     EvSleep fifteenMinutes] |}).
  pose proof (callsAtMost_bind [] ids _ _
    (callsAtMost_addFriend env id)
    (λ _, callsAtMost_bind [] ids _ _
       (callsAtMost_emit (EvLog ("[twitter] following (id:" +:+ pretty (UserId user)
          +:+ ", name:" +:+ Name user +:+ ")" +:+ newline)) ltac:(discriminate))
       (λ _, callsAtMost_bind [] ids _ _ (callsAtMost_controlledSleep sleepPolicy)
          (λ _, callsAtMost_followAll env ids sleepPolicy))) after)
    as (rest & Hrest & Hcalls).
  exists rest. split; [|done].
  trans (trace after ++ rest); [|subst after; cbn; by rewrite <- (assoc_L (++))].
  rewrite <- Hrest. f_equal.
  assert (Hcheck :
    (checkUnableToFollowAtThisTime (Some e) ≫= λ unable : bool, mret (negb unable))
      {| bot := bot st; trace := trace st ++ [EvFollowUserId id] |}
    = (Done false, after)).
  { unfold checkUnableToFollowAtThisTime. rewrite Hunable. subst after. msimpl.
    by rewrite <- !(assoc_L (++)). }
  unfold mbind at 1, M_bind at 1. by rewrite Hcheck.
Qed.

Lemma C8_rate_limited_no_retry_witness :
  ∃ rest,
    trace (followAll rateLimited [5] None st0).2
    = trace st0
      ++ [EvFollowUserId 5;
          EvLog ("unable to follow at this time, waiting 15min..., "
                 +:+ "You are unable to follow more people at this time");
          EvSleep fifteenMinutes]
      ++ rest ∧
    ∀ id', (followCalls id' rest <= occurrences id' [])%nat.
Proof.
  apply (C8_rate_limited_no_retry rateLimited 5 [] None st0
           {| UserId := 0; Name := EmptyString |}); reflexivity.
Defined.

(** C8, as stated, fails: with a remote side that refuses every follow for
    the time being, the flow calls [FollowUserId] once for the identifier,
    sleeps, does not call it again, and records the identifier as a friend
    although no follow succeeded. *)
Lemma C8_refused_follow_not_retried :
  (∀ h id, (followUserId rateLimited h id).2 ≠ None) ∧
  followCalls 5 (trace (followAll rateLimited [5] None st0).2) = 1%nat ∧
  is_Some (friends (bot (followAll rateLimited [5] None st0).2) !! FormatInt 5).
Proof.
  split; [by intros h id|]. split; [vm_compute; reflexivity|].
  eexists. vm_compute. reflexivity.
Qed.

(** * Further properties of the code *)

(** ** Reconciliation: the flags and the second pass *)

(** X1: after the two loops of [updateFollowers] and [updateFriends], every
    remote identifier has a record, and a record is flagged as followed
    exactly when its key is the decimal form of a remote identifier. *)
Theorem X1_reconcile_flags (env : Env) (users : twitterUsers)
    (pages : list (list Z)) (st : St) :
  ∃ users' st',
    reconcile env users pages st = (Done users', st') ∧
    (∀ id, id ∈ concat pages →
       ∃ user', users' !! FormatInt id = Some user' ∧ Follow user' = true) ∧
    (∀ key user', users' !! key = Some user' → Follow user' = true →
       ∃ id, id ∈ concat pages ∧ key = FormatInt id).
Proof.
  destruct (reconcile_spec env users pages st)
    as (users' & new & Hrun & _ & _ & Hin & Hflag & _).
  eexists users', _. split; [done|]. split.
  - intros id Hid. destruct (Hin id Hid) as [user' Hu]. exists user'.
    split; [done|]. apply (Hflag _ _ Hu). eauto.
  - intros key user' Hk Hf. by apply (Hflag _ _ Hk).
Qed.

(** The loop over a page reads no clock when every identifier of the page
    has a record already. *)
Lemma reconcileIds_known (env : Env) (ids : list Z) (users : twitterUsers) (st : St) :
  (∀ id, id ∈ ids → is_Some (users !! FormatInt id)) →
  ∃ users', reconcileIds env ids users st = (Done users', st).
Proof.
  revert users. induction ids as [|id ids IH]; intros users Hknown; [by eexists|].
  cbn [reconcileIds].
  destruct (Hknown id) as [user Hu]; [by apply elem_of_cons; left|]. rewrite Hu.
  apply IH. intros id' Hid'.
  destruct (decide (FormatInt id = FormatInt id')) as [<-|Hne].
  - by rewrite lookup_insert_eq.
  - rewrite lookup_insert_ne by done. apply Hknown. by apply elem_of_cons; right.
Qed.

Lemma reconcileIds_known_dom (env : Env) (ids : list Z) (users users' : twitterUsers)
    (st st' : St) :
  reconcileIds env ids users st = (Done users', st') →
  ∀ key, is_Some (users !! key) → is_Some (users' !! key).
Proof.
  intros Hrun key [user Hk].
  destruct (reconcileIds_spec env ids users st) as (users'' & new & Hrun' & (Hsame & _) & _).
  rewrite Hrun in Hrun'. injection Hrun' as -> _.
  destruct (Hsame key user Hk) as (user' & -> & _). done.
Qed.

Lemma reconcilePages_known (env : Env) (pages : list (list Z))
    (users : twitterUsers) (st : St) :
  (∀ id, id ∈ concat pages → is_Some (users !! FormatInt id)) →
  ∃ users', reconcilePages env pages users st = (Done users', st).
Proof.
  revert users. induction pages as [|v pages IH]; intros users Hknown; [by eexists|].
  cbn [reconcilePages]. unfold mbind, M_bind.
  destruct (reconcileIds_known env v users st) as (users1 & Hrun1).
  { intros id Hid. apply Hknown. cbn. apply elem_of_app. by left. }
  rewrite Hrun1. apply IH. intros id Hid.
  eapply reconcileIds_known_dom; [done|]. apply Hknown. cbn. apply elem_of_app. by right.
Qed.

(** X2: a second reconciliation against the same remote identifiers gives
    the same snapshot again, and reads no clock. *)
Theorem X2_reconcile_again (env : Env) (users users' : twitterUsers)
    (pages : list (list Z)) (st st' st2 : St) :
  reconcile env users pages st = (Done users', st') →
  reconcile env users' pages st2 = (Done users', st2).
Proof.
  intros Hrun.
  destruct (reconcile_spec env users pages st)
    as (users1 & new & Hrun1 & _ & _ & Hin & Hflag & _).
  rewrite Hrun in Hrun1. injection Hrun1 as <- _.
  unfold reconcile.
  destruct (reconcilePages_known env pages (markUnfollowed <$> users') st2)
    as (users2 & Hrun2).
  { intros id Hid. rewrite lookup_fmap, fmap_is_Some. by apply Hin. }
  rewrite Hrun2. do 2 f_equal.
  destruct (reconcile_spec env users' pages st2)
    as (users3 & new3 & Hrun3 & Hsame & Hins & _ & Hflag3 & _).
  unfold reconcile in Hrun3. rewrite Hrun2 in Hrun3. injection Hrun3 as <- _.
  apply map_eq. intros key.
  destruct (users' !! key) as [user|] eqn:Hk.
  - destruct (Hsame key user Hk) as (user2 & Hk2 & Htime). rewrite Hk2. f_equal.
    pose proof (Hflag key user Hk) as Hf. pose proof (Hflag3 key user2 Hk2) as Hf2.
    destruct user as [t f], user2 as [t2 f2]. cbn in *. subst t2. f_equal.
    destruct f, f2; try done.
    + assert (false = true) by (by apply Hf2, Hf). done.
    + assert (false = true) by (by apply Hf, Hf2). done.
  - destruct (users2 !! key) as [user2|] eqn:Hk2; [|done].
    destruct (Hins key) as [[? ?]|(id & Hid & ->)]; [by rewrite Hk2|congruence|].
    destruct (Hin id Hid) as [? ?]. congruence.
Qed.

Lemma X2_reconcile_again_witness :
  ∃ users',
    reconcile follower7Left {[ "7" := {| Timestamp := 1; Follow := true |} ]} [[8]] st0
      = (Done users', {| bot := bot0; trace := [EvNow] |}) ∧
    reconcile follower7Left users' [[8]] st0 = (Done users', st0).
Proof.
  eexists. split; [vm_compute; reflexivity|].
  eapply (X2_reconcile_again follower7Left
            {[ "7" := {| Timestamp := 1; Follow := true |} ]} _ [[8]] st0).
  vm_compute. reflexivity.
Defined.

(** ** A successful update: what is in memory is what was saved *)

Lemma updateUsers_success (env : Env) (path : string)
    (fetch : M (list (list Z))) (assign : twitterUsers → M unit)
    (field : TwitterBot → twitterUsers) (ev : event) (st st' : St) :
  (∀ st0, ∃ pages,
     fetch st0 = (Done pages, {| bot := bot st0; trace := trace st0 ++ [ev] |})) →
  (∀ users st0, ∃ b,
     assign users st0 = (Done (), {| bot := b; trace := trace st0 |}) ∧
     field b = users) →
  updateUsers env path fetch assign st = (Done None, st') →
  ∃ tr, trace st' = tr ++ [EvSave path (field (bot st'))] ∧
        saveResult env tr path (field (bot st')) = None.
Proof.
  intros Hfetch Hassign Hrun.
  destruct (updateUsers_spec env path fetch assign ev st Hfetch)
    as (before & _ & Hspec).
  destruct (loadResult env (trace st ++ before) path) as [loaded|err];
    [|congruence].
  destruct Hspec as (pages & users' & new & _ & Hrun').
  rewrite Hrun in Hrun'. cbn zeta in Hrun'.
  destruct (saveResult env _ path users') eqn:Hsave; [done|].
  unfold mbind, M_bind in Hrun'.
  destruct (Hassign users' {| bot := bot st;
              trace := (((trace st ++ before) ++ [EvLoad path; ev]) ++ new)
                       ++ [EvSave path users'] |}) as (b & Hb & Hfield).
  rewrite Hb in Hrun'. injection Hrun' as ->. cbn. rewrite Hfield. eauto.
Qed.

(** X3: when [updateFollowers] or [updateFriends] succeeds, the last call
    it made is the save, accepted, of exactly the snapshot it leaves in
    memory, and the other snapshot is as it was. *)
Theorem X3_update_saves_what_it_assigns (env : Env) (st st' : St) :
  (updateFollowers env st = (Done None, st') →
   (∃ tr, trace st' = tr ++ [EvSave (followersPath (bot st)) (followers (bot st'))] ∧
          saveResult env tr (followersPath (bot st)) (followers (bot st')) = None) ∧
   friends (bot st') = friends (bot st)) ∧
  (updateFriends env st = (Done None, st') →
   (∃ tr, trace st' = tr ++ [EvSave (friendsPath (bot st)) (friends (bot st'))] ∧
          saveResult env tr (friendsPath (bot st)) (friends (bot st')) = None) ∧
   followers (bot st') = followers (bot st)).
Proof.
  split; intros Hrun.
  - split.
    + apply (updateUsers_success env (followersPath (bot st))
               (GetFollowersIdsAll env) setFollowers followers EvGetFollowersIdsAll st);
        [apply GetFollowersIdsAll_run|by eexists|done].
    + destruct (updateUsers_spec env (followersPath (bot st)) (GetFollowersIdsAll env)
                  setFollowers EvGetFollowersIdsAll st (GetFollowersIdsAll_run env))
        as (before & _ & Hspec).
      change (updateUsers env (followersPath (bot st)) (GetFollowersIdsAll env)
                setFollowers st = (Done None, st')) in Hrun.
      destruct (loadResult env _ _); [|congruence].
      destruct Hspec as (pages & users' & new & _ & Hrun').
      rewrite Hrun in Hrun'. cbn zeta in Hrun'.
      destruct (saveResult env _ _ users'); [done|].
      by injection Hrun' as ->.
  - split.
    + apply (updateUsers_success env (friendsPath (bot st))
               (GetFriendsIdsAll env) setFriends friends EvGetFriendsIdsAll st);
        [apply GetFriendsIdsAll_run|by eexists|done].
    + destruct (updateUsers_spec env (friendsPath (bot st)) (GetFriendsIdsAll env)
                  setFriends EvGetFriendsIdsAll st (GetFriendsIdsAll_run env))
        as (before & _ & Hspec).
      change (updateUsers env (friendsPath (bot st)) (GetFriendsIdsAll env)
                setFriends st = (Done None, st')) in Hrun.
      destruct (loadResult env _ _); [|congruence].
      destruct Hspec as (pages & users' & new & _ & Hrun').
      rewrite Hrun in Hrun'. cbn zeta in Hrun'.
      destruct (saveResult env _ _ users'); [done|].
      by injection Hrun' as ->.
Qed.

Lemma X3_update_saves_what_it_assigns_witness :
  ∃ st',
    updateFollowers follower7Left st0 = (Done None, st') ∧
    (∃ tr, trace st' = tr ++ [EvSave "followers.json" (followers (bot st'))] ∧
           saveResult follower7Left tr "followers.json" (followers (bot st')) = None) ∧
    friends (bot st') = friends (bot st0).
Proof.
  eexists. split; [vm_compute; reflexivity|].
  refine (proj1 (X3_update_saves_what_it_assigns follower7Left st0 _) _).
  vm_compute. reflexivity.
Defined.

(** ** [addFriend], [getFriend] and [unfollowFriend] *)

(** X4: once [addFriend] has returned, [getFriend] finds the identifier,
    followed, first seen at the time [addFriend] read, whatever was recorded
    for it before; the other friends and the followers are as they were, and
    the friends in memory are those of the last save. *)
Theorem X4_addFriend_getFriend (env : Env) (id : Z) (st st' : St) :
  addFriend env id st = (Done (), st') →
  getFriend id st'
    = (Done (Some {| Timestamp := nowUnixNano env (trace st); Follow := true |}), st') ∧
  (∀ id', id' ≠ id →
     getFriend id' st' = (Done (friends (bot st) !! FormatInt id'), st')) ∧
  followers (bot st') = followers (bot st) ∧
  ∃ tr, trace st' = tr ++ [EvSave (friendsPath (bot st)) (friends (bot st'))].
Proof.
  rewrite addFriend_run. cbn zeta.
  destruct (saveResult env _ _ _); [done|]. intros [= <-].
  rewrite !getFriend_run. cbn. split_and!.
  - by rewrite lookup_insert_eq.
  - intros id' Hne. rewrite getFriend_run. cbn.
    rewrite lookup_insert_ne; [done|]. by intros ?%FormatInt_inj.
  - done.
  - eauto.
Qed.

Lemma X4_addFriend_getFriend_witness :
  ∃ st', addFriend rateLimited 7 st0 = (Done (), st') ∧
         getFriend 7 st' = (Done (Some {| Timestamp := 0; Follow := true |}), st').
Proof.
  eexists. split; [vm_compute; reflexivity|].
  refine (proj1 (X4_addFriend_getFriend rateLimited 7 st0 _ _)).
  vm_compute. reflexivity.
Defined.

(** X5: [unfollowFriend] panics, saving nothing, on an identifier that is
    not recorded; once it has returned, the record of the identifier is
    still there, first seen at the same time and not followed any more, and
    the other friends and the followers are as they were. *)
Theorem X5_unfollowFriend (env : Env) (id : Z) (st : St) :
  (friends (bot st) !! FormatInt id = None →
   unfollowFriend env id st = (Panic, st)) ∧
  (∀ st', unfollowFriend env id st = (Done (), st') →
     ∃ user,
       friends (bot st) !! FormatInt id = Some user ∧
       getFriend id st'
         = (Done (Some {| Timestamp := Timestamp user; Follow := false |}), st') ∧
       (∀ id', id' ≠ id →
          getFriend id' st' = (Done (friends (bot st) !! FormatInt id'), st')) ∧
       followers (bot st') = followers (bot st)).
Proof.
  rewrite unfollowFriend_run. split.
  - by intros ->.
  - intros st'. destruct (friends (bot st) !! FormatInt id) as [user|] eqn:Hid; [|done].
    cbn zeta. destruct (saveResult env _ _ _); [done|]. intros [= <-].
    exists user. split; [done|]. rewrite getFriend_run. cbn. split_and!.
    + by rewrite lookup_insert_eq.
    + intros id' Hne. rewrite getFriend_run. cbn.
      rewrite lookup_insert_ne; [done|]. by intros ?%FormatInt_inj.
    + done.
Qed.

Lemma X5_unfollowFriend_witness :
  unfollowFriend rateLimited 7 st0 = (Panic, st0) ∧
  ∃ st1 st2,
    addFriend rateLimited 7 st0 = (Done (), st1) ∧
    unfollowFriend rateLimited 7 st1 = (Done (), st2) ∧
    getFriend 7 st2 = (Done (Some {| Timestamp := 0; Follow := false |}), st2).
Proof.
  split.
  - apply (X5_unfollowFriend rateLimited 7 st0). reflexivity.
  - eexists _, _. split; [vm_compute; reflexivity|]. split; [vm_compute; reflexivity|].
    match goal with |- getFriend 7 ?st2 = _ =>
      destruct (proj2 (X5_unfollowFriend rateLimited 7
                  (addFriend rateLimited 7 st0).2) st2) as (user & Hu & Hget & _)
    end.
    + vm_compute. reflexivity.
    + vm_compute in Hu. injection Hu as <-. exact Hget.
Defined.

(** ** The branches of the follow flow *)

(** The flow on an identifier that is neither a friend nor a follower: the
    follow is tried, and what comes next depends on its answer. *)
Lemma followAll_untracked (env : Env) (id : Z) (ids : list Z)
    (sleepPolicy : option SleepPolicy) (st : St) :
  friends (bot st) !! FormatInt id = None →
  followers (bot st) !! FormatInt id = None →
  followAll env (id :: ids) sleepPolicy st =
  (failed ← match (followUserId env (trace st) id).2 with
            | Some _ =>
                unable ← checkUnableToFollowAtThisTime (followUserId env (trace st) id).2;
                mret (negb unable)
            | None => mret false
            end;
   if (failed : bool) then
     checkBotRestriction (followUserId env (trace st) id).2;;
     printDebug ("[twitter] failed to follow user (id:"
                 +:+ pretty (UserId (followUserId env (trace st) id).1)
                 +:+ ", name:" +:+ Name (followUserId env (trace st) id).1
                 +:+ "), error: "
                 +:+ default EmptyString (followUserId env (trace st) id).2 +:+ newline);;
     followAll env ids sleepPolicy
   else
     addFriend env id;;
     logPrintln ("[twitter] following (id:"
                 +:+ pretty (UserId (followUserId env (trace st) id).1)
                 +:+ ", name:" +:+ Name (followUserId env (trace st) id).1
                 +:+ ")" +:+ newline);;
     controlledSleep sleepPolicy;;
     followAll env ids sleepPolicy)
    {| bot := bot st; trace := trace st ++ [EvFollowUserId id] |}.
Proof.
  intros Hfriend Hfollower.
  cbn [followAll]. unfold mbind at 1, M_bind at 1. rewrite getFriend_run, Hfriend.
  unfold mbind at 1, M_bind at 1. rewrite bool_decide_eq_false_2 by by intros [? ?].
  rewrite isFollower_run, Hfollower.
  rewrite bool_decide_eq_false_2 by by intros [? ?].
  unfold mbind at 1, M_bind at 1. unfold FollowUserId. msimpl.
  by destruct (followUserId env (trace st) id) as [user err].
Qed.

(** X6: when the follow of an identifier is refused because the token is
    invalid or expired, or the account locked, the flow logs the error and
    the process exits: nothing is recorded, and no other identifier is
    followed. *)
Theorem X6_followAll_exits_on_restriction (env : Env) (id : Z) (ids : list Z)
    (sleepPolicy : option SleepPolicy) (st : St) (user : User) (e : error) :
  friends (bot st) !! FormatInt id = None →
  followers (bot st) !! FormatInt id = None →
  followUserId env (trace st) id = (user, Some e) →
  Contains e unableToFollowText = false →
  Contains e "Invalid or expired token" = true ∨
  Contains e "this account is temporarily locked" = true →
  followAll env (id :: ids) sleepPolicy st
  = (Fatal e, {| bot := bot st; trace := trace st ++ [EvFollowUserId id; EvLog e] |}).
Proof.
  intros Hfriend Hfollower Hfollow Hunable Hfatal.
  rewrite followAll_untracked by done. rewrite Hfollow. cbn [fst snd].
  unfold checkUnableToFollowAtThisTime, checkBotRestriction. rewrite Hunable.
  assert (Contains e "Invalid or expired token"
          || Contains e "this account is temporarily locked" = true) as ->.
  { destruct Hfatal as [-> | ->]; [done|by rewrite orb_true_r]. }
  msimpl. by rewrite <- (assoc_L (++)).
Qed.

(** X7: when the follow of an identifier fails for another reason, the
    flow logs the error, records nothing, and goes on with the identifiers
    that are left. *)
Theorem X7_followAll_skips_on_error (env : Env) (id : Z) (ids : list Z)
    (sleepPolicy : option SleepPolicy) (st : St) (user : User) (e : error) :
  friends (bot st) !! FormatInt id = None →
  followers (bot st) !! FormatInt id = None →
  followUserId env (trace st) id = (user, Some e) →
  Contains e unableToFollowText = false →
  Contains e "Invalid or expired token" = false →
  Contains e "this account is temporarily locked" = false →
  ∃ logged,
    followAll env (id :: ids) sleepPolicy st
    = followAll env ids sleepPolicy
        {| bot := bot st; trace := trace st ++ EvFollowUserId id :: EvLog e :: logged |} ∧
    (∀ e', e' ∈ logged → ∃ line, e' = EvLog line).
Proof.
  intros Hfriend Hfollower Hfollow Hunable Htoken Hlocked.
  rewrite followAll_untracked by done. rewrite Hfollow. cbn [fst snd].
  unfold checkUnableToFollowAtThisTime, checkBotRestriction.
  rewrite Hunable, Htoken, Hlocked. msimpl.
  destruct (debug (bot st)); cbn.
  - eexists [_]. rewrite <- !(assoc_L (++)). cbn. split; [done|].
    intros e' ->%list_elem_of_singleton. eauto.
  - exists []. rewrite <- !(assoc_L (++)). cbn. split; [done|].
    by intros e' ?%elem_of_nil.
Qed.

(** The flow on an identifier whose follow succeeds, the friends being
    saved. *)
Lemma followAll_success_step (env : Env) (id : Z) (ids : list Z)
    (sleepPolicy : option SleepPolicy) (st : St) (user : User) :
  friends (bot st) !! FormatInt id = None →
  followers (bot st) !! FormatInt id = None →
  followUserId env (trace st) id = (user, None) →
  saveResult env (trace st ++ [EvFollowUserId id; EvNow]) (friendsPath (bot st))
    (<[FormatInt id := {| Timestamp := nowUnixNano env (trace st ++ [EvFollowUserId id]);
                          Follow := true |}]> (friends (bot st))) = None →
  ∃ st1 mid,
    followAll env (id :: ids) sleepPolicy st = followAll env ids sleepPolicy st1 ∧
    friends (bot st1)
      = <[FormatInt id := {| Timestamp := nowUnixNano env (trace st ++ [EvFollowUserId id]);
                             Follow := true |}]> (friends (bot st)) ∧
    followers (bot st1) = followers (bot st) ∧
    trace st1 = trace st ++ EvFollowUserId id :: mid ∧
    followCalls id mid = 0%nat.
Proof.
  intros Hfriend Hfollower Hfollow Hsave.
  rewrite followAll_untracked by done. rewrite Hfollow. cbn [fst snd].
  unfold mbind at 1, M_bind at 1. cbn [mret M_ret].
  unfold mbind at 1, M_bind at 1. rewrite addFriend_run. cbn zeta. cbn [bot trace].
  rewrite <- (assoc_L (++)). cbn [app]. rewrite Hsave.
  unfold controlledSleep. msimpl.
  destruct sleepPolicy as [p|]; [destruct (debug (bot st))|]; cbn;
    eexists _, _; (split; [done|]); cbn; (split; [done|]); (split; [done|]);
    rewrite <- ?(assoc_L (++)); cbn; (split; [done|]); done.
Qed.

(** X8: when the follow of an identifier succeeds and the friends are
    saved, the identifier is recorded as a friend, followed, first seen at
    the time read after the follow, and the flow goes on with the
    identifiers that are left; the followers are not touched. *)
Theorem X8_followAll_records_success (env : Env) (id : Z) (ids : list Z)
    (sleepPolicy : option SleepPolicy) (st : St) (user : User) :
  friends (bot st) !! FormatInt id = None →
  followers (bot st) !! FormatInt id = None →
  followUserId env (trace st) id = (user, None) →
  saveResult env (trace st ++ [EvFollowUserId id; EvNow]) (friendsPath (bot st))
    (<[FormatInt id := {| Timestamp := nowUnixNano env (trace st ++ [EvFollowUserId id]);
                          Follow := true |}]> (friends (bot st))) = None →
  ∃ st1,
    followAll env (id :: ids) sleepPolicy st = followAll env ids sleepPolicy st1 ∧
    friends (bot st1)
      = <[FormatInt id := {| Timestamp := nowUnixNano env (trace st ++ [EvFollowUserId id]);
                             Follow := true |}]> (friends (bot st)) ∧
    followers (bot st1) = followers (bot st).
Proof.
  intros Hfriend Hfollower Hfollow Hsave.
  destruct (followAll_success_step env id ids sleepPolicy st user
              Hfriend Hfollower Hfollow Hsave) as (st1 & mid & ? & ? & ? & _).
  by exists st1.
Qed.

Lemma X6_followAll_exits_on_restriction_witness :
  followAll (refusing "Invalid or expired token") [5; 6] None st0
  = (Fatal "Invalid or expired token",
     {| bot := bot0; trace := [EvFollowUserId 5; EvLog "Invalid or expired token"] |}).
Proof.
  apply (X6_followAll_exits_on_restriction (refusing "Invalid or expired token")
           5 [6] None st0 {| UserId := 5; Name := "someone" |});
    try reflexivity. by left.
Defined.

Lemma X7_followAll_skips_on_error_witness :
  ∃ logged,
    followAll (refusing "timeout") [5; 6] None st0
    = followAll (refusing "timeout") [6] None
        {| bot := bot0; trace := EvFollowUserId 5 :: EvLog "timeout" :: logged |} ∧
    (∀ e', e' ∈ logged → ∃ line, e' = EvLog line).
Proof.
  apply (X7_followAll_skips_on_error (refusing "timeout") 5 [6] None st0
           {| UserId := 5; Name := "someone" |}); reflexivity.
Defined.

Lemma X8_followAll_records_success_witness :
  ∃ st1,
    followAll follower7Left [5; 6] None st0 = followAll follower7Left [6] None st1 ∧
    friends (bot st1) = <[FormatInt 5 := {| Timestamp := 1; Follow := true |}]> ∅ ∧
    followers (bot st1) = ∅.
Proof.
  apply (X8_followAll_records_success follower7Left 5 [6] None st0
           {| UserId := 5; Name := "someone" |}); reflexivity.
Defined.

(** ** The identifiers that the follow flow leaves alone *)

Lemma leavesAlone_bind {A B : Type} (id : Z) (m : M A) (f : A → M B) :
  leavesAlone id m → (∀ a, leavesAlone id (f a)) → leavesAlone id (m ≫= f).
Proof.
  intros Hm Hf st Ht. unfold mbind, M_bind.
  destruct (Hm st Ht) as (Ht1 & new1 & Htr1 & Hn1).
  destruct (m st) as [[a|line|] st1]; cbn in *; [|by eauto..].
  destruct (Hf a st1 Ht1) as (Ht2 & new2 & Htr2 & Hn2).
  split; [done|]. exists (new1 ++ new2).
  split; [by rewrite Htr2, Htr1, (assoc_L (++))|].
  rewrite followCalls_app. lia.
Qed.

(** A computation that does not touch the bot and makes no call of
    [FollowUserId] leaves every identifier alone. *)
Lemma leavesAlone_quiet {A : Type} (id : Z) (m : M A) :
  (∀ st, bot (m st).2 = bot st) → callsAtMost [] m → leavesAlone id m.
Proof.
  intros Hbot Hcalls st Ht. rewrite Hbot. split; [done|].
  destruct (Hcalls st) as (new & Htr & Hn). exists new. split; [done|].
  specialize (Hn id). unfold occurrences in Hn. cbn in Hn. lia.
Qed.

Lemma leavesAlone_addFriend (env : Env) (id id' : Z) : leavesAlone id (addFriend env id').
Proof.
  intros st Ht. split.
  - rewrite addFriend_run. cbn zeta. unfold tracked in *.
    destruct (saveResult env _ _ _); cbn;
      (destruct Ht as [[u Hu]|Hf]; [left|by right]);
      (destruct (decide (FormatInt id' = FormatInt id)) as [Heq|Hne];
       [by rewrite Heq, lookup_insert_eq|by rewrite lookup_insert_ne, Hu by done]).
  - destruct (callsAtMost_addFriend env id' st) as (new & Htr & Hn).
    exists new. split; [done|]. specialize (Hn id). unfold occurrences in Hn.
    cbn in Hn. lia.
Qed.

Lemma leavesAlone_checkUnableToFollowAtThisTime (id : Z) (err : option error) :
  leavesAlone id (checkUnableToFollowAtThisTime err).
Proof.
  apply leavesAlone_quiet; [|apply callsAtMost_checkUnableToFollowAtThisTime].
  intros st. unfold checkUnableToFollowAtThisTime.
  destruct err as [e|]; [|done]. by destruct (Contains e unableToFollowText).
Qed.

Lemma leavesAlone_checkBotRestriction (id : Z) (err : option error) :
  leavesAlone id (checkBotRestriction err).
Proof.
  apply leavesAlone_quiet; [|apply callsAtMost_checkBotRestriction].
  intros st. unfold checkBotRestriction. destruct err as [e|]; [|done].
  by destruct (Contains e "Invalid or expired token"
               || Contains e "this account is temporarily locked").
Qed.

Lemma leavesAlone_printDebug (id : Z) (text : string) : leavesAlone id (printDebug text).
Proof.
  apply leavesAlone_quiet; [|apply callsAtMost_printDebug].
  intros st. unfold printDebug. msimpl. by destruct (debug (bot st)).
Qed.

Lemma leavesAlone_controlledSleep (id : Z) (sleepPolicy : option SleepPolicy) :
  leavesAlone id (controlledSleep sleepPolicy).
Proof.
  apply leavesAlone_quiet; [|apply callsAtMost_controlledSleep].
  intros st. unfold controlledSleep. msimpl.
  destruct sleepPolicy; [|done]. by destruct (debug (bot st)).
Qed.

Lemma leavesAlone_logPrintln (id : Z) (line : string) : leavesAlone id (logPrintln line).
Proof.
  apply leavesAlone_quiet; [done|]. by apply callsAtMost_emit.
Qed.

Lemma leavesAlone_ret {A : Type} (id : Z) (a : A) : leavesAlone id (mret a).
Proof. apply leavesAlone_quiet; [done|apply callsAtMost_ret]. Qed.

(** The flow never follows an identifier that is a friend or a follower
    when it starts. *)
Lemma leavesAlone_followAll (env : Env) (id : Z) (ids : list Z)
    (sleepPolicy : option SleepPolicy) :
  leavesAlone id (followAll env ids sleepPolicy).
Proof.
  induction ids as [|id' ids IH]; [apply leavesAlone_ret|].
  intros st Ht.
  destruct (decide (tracked id' (bot st))) as [Ht'|Hnt].
  { rewrite followAll_tracked by done. by apply IH. }
  assert (Hne : id' ≠ id) by by intros ->.
  assert (friends (bot st) !! FormatInt id' = None ∧
          followers (bot st) !! FormatInt id' = None) as [Hfriend Hfollower].
  { unfold tracked in Hnt.
    destruct (friends (bot st) !! FormatInt id'), (followers (bot st) !! FormatInt id');
      try done; exfalso; apply Hnt; eauto. }
  rewrite followAll_untracked by done.
  match goal with |- context [?m {| bot := bot st; trace := ?tr |}] =>
    assert (Hrest : leavesAlone id m)
  end.
  { apply leavesAlone_bind.
    { destruct (followUserId env (trace st) id').2; [|apply leavesAlone_ret].
      apply leavesAlone_bind; [apply leavesAlone_checkUnableToFollowAtThisTime|].
      intros unable. apply leavesAlone_ret. }
    intros [|].
    - apply leavesAlone_bind; [apply leavesAlone_checkBotRestriction|intros _].
      apply leavesAlone_bind; [apply leavesAlone_printDebug|intros _]. done.
    - apply leavesAlone_bind; [apply leavesAlone_addFriend|intros _].
      apply leavesAlone_bind; [apply leavesAlone_logPrintln|intros _].
      apply leavesAlone_bind; [apply leavesAlone_controlledSleep|intros _]. done. }
  destruct (Hrest {| bot := bot st; trace := trace st ++ [EvFollowUserId id'] |} Ht)
    as (Ht1 & new & Htr & Hn).
  split; [done|]. exists (EvFollowUserId id' :: new).
  split; [rewrite Htr; cbn; by rewrite <- (assoc_L (++))|].
  unfold followCalls in *. rewrite filter_cons_False by congruence. done.
Qed.

(** X9: an identifier that is a key of the friends or of the followers
    when the flow starts is not followed by it, wherever and however often
    it is listed, and it is still a key when the flow ends. *)
Theorem X9_followAll_never_follows_tracked (env : Env) (id : Z) (ids : list Z)
    (sleepPolicy : option SleepPolicy) (st : St) :
  tracked id (bot st) →
  tracked id (bot (followAll env ids sleepPolicy st).2) ∧
  ∃ new,
    trace (followAll env ids sleepPolicy st).2 = trace st ++ new ∧
    followCalls id new = 0%nat.
Proof. apply leavesAlone_followAll. Qed.

Lemma X9_followAll_never_follows_tracked_witness :
  ∃ st1,
    updateFollowers follower7Left st0 = (Done None, st1) ∧
    ∃ new,
      trace (followAll follower7Left [5; 7; 8; 7] None st1).2 = trace st1 ++ new ∧
      followCalls 7 new = 0%nat.
Proof.
  eexists. split; [vm_compute; reflexivity|].
  eapply X9_followAll_never_follows_tracked.
  right. eexists. vm_compute. reflexivity.
Defined.

(** X10: in every run, whatever the remote side answers, the flow calls
    [FollowUserId] only for identifiers of its list, and for each of them at
    most as many times as it is listed. *)
Theorem X10_followAll_follows_listed_only (env : Env) (ids : list Z)
    (sleepPolicy : option SleepPolicy) (st : St) :
  ∃ new,
    trace (followAll env ids sleepPolicy st).2 = trace st ++ new ∧
    (∀ id, (followCalls id new <= occurrences id ids)%nat) ∧
    (∀ id, id ∉ ids → followCalls id new = 0%nat).
Proof.
  destruct (callsAtMost_followAll env ids sleepPolicy st) as (new & Htr & Hn).
  exists new. split_and!; [done|done|].
  intros id Hid. specialize (Hn id).
  assert (occurrences id ids = 0%nat); [|lia].
  unfold occurrences. clear Hn Htr. induction ids as [|x ids IH]; [done|].
  apply not_elem_of_cons in Hid as [Hne Hid].
  rewrite filter_cons_False by congruence. by apply IH.
Qed.

(** X11: an identifier whose follow succeeded, and was recorded, is not
    followed a second time by the same run, even if it is listed again. *)
Theorem X11_followAll_follows_once (env : Env) (id : Z) (ids : list Z)
    (sleepPolicy : option SleepPolicy) (st : St) (user : User) :
  friends (bot st) !! FormatInt id = None →
  followers (bot st) !! FormatInt id = None →
  followUserId env (trace st) id = (user, None) →
  saveResult env (trace st ++ [EvFollowUserId id; EvNow]) (friendsPath (bot st))
    (<[FormatInt id := {| Timestamp := nowUnixNano env (trace st ++ [EvFollowUserId id]);
                          Follow := true |}]> (friends (bot st))) = None →
  ∃ rest,
    trace (followAll env (id :: ids) sleepPolicy st).2
      = trace st ++ EvFollowUserId id :: rest ∧
    followCalls id rest = 0%nat.
Proof.
  intros Hfriend Hfollower Hfollow Hsave.
  destruct (followAll_success_step env id ids sleepPolicy st user
              Hfriend Hfollower Hfollow Hsave)
    as (st1 & mid & -> & Hfriends & _ & Htr & Hmid).
  destruct (leavesAlone_followAll env id ids sleepPolicy st1) as (_ & new & Htr1 & Hnew).
  { left. by rewrite Hfriends, lookup_insert_eq. }
  exists (mid ++ new). split.
  - rewrite Htr1, Htr. by rewrite <- (assoc_L (++)).
  - rewrite followCalls_app. lia.
Qed.

Lemma X11_followAll_follows_once_witness :
  ∃ rest,
    trace (followAll follower7Left [5; 6; 5] None st0).2
      = trace st0 ++ EvFollowUserId 5 :: rest ∧
    followCalls 5 rest = 0%nat.
Proof.
  apply (X11_followAll_follows_once follower7Left 5 [6; 5] None st0
           {| UserId := 5; Name := "someone" |}); reflexivity.
Defined.

(** ** Further properties of [getOriginalText] *)

Lemma stripLinks_length (fuel : nat) (text stripped : string) :
  stripLinks fuel text = Some stripped →
  (String.length stripped <= String.length text)%nat.
Proof.
  revert text. induction fuel as [|fuel IH]; intros text; [done|].
  cbn [stripLinks].
  destruct (Contains text tweetTCOHTTPTag) eqn:Hc1.
  - destruct (stripText_true text tweetTCOHTTPTag tweetTCOTextIndex Hc1)
      as (s1 & -> & Hlen1).
    destruct (Contains s1 tweetTCOHTTPSTag) eqn:Hc2.
    + destruct (stripText_true s1 tweetTCOHTTPSTag tweetTCOTextIndex Hc2)
        as (s2 & -> & Hlen2).
      cbn. intros ?%IH. lia.
    + rewrite stripText_false by done. cbn. intros ?%IH. lia.
  - rewrite stripText_false by done.
    destruct (Contains text tweetTCOHTTPSTag) eqn:Hc2.
    + destruct (stripText_true text tweetTCOHTTPSTag tweetTCOTextIndex Hc2)
        as (s2 & -> & Hlen2).
      cbn. intros ?%IH. lia.
    + rewrite stripText_false by done. cbn. by intros [= ->].
Qed.

(** X12: whatever the text, [getOriginalText] returns; the string it
    returns holds no t.co link, secure or not, and is no longer than the
    text. *)
Theorem X12_getOriginalText_no_link (text : string) :
  ∃ original err,
    getOriginalText text = Some (original, err) ∧
    Contains original tweetTCOHTTPTag = false ∧
    Contains original tweetTCOHTTPSTag = false ∧
    len original <= len text.
Proof.
  destruct (getOriginalText_returns text) as [[original err] Hrun].
  exists original, err. split; [done|].
  rewrite getOriginalText_eq in Hrun. unfold len.
  destruct (Contains text retweetTextTag).
  - destruct (cut text retweetTextIndex) as [[before rest]|] eqn:Hcut.
    + destruct (stripLinks _ rest) as [s|] eqn:Hs; [|done].
      injection Hrun as <- <-.
      destruct (stripLinks_fixpoint _ _ _ Hs) as [? ?].
      apply stripLinks_length in Hs. apply cut_length in Hcut.
      split_and!; [done|done|lia].
    + injection Hrun as <- <-. split_and!; [done|done|cbn; lia].
  - destruct (stripLinks _ text) as [s|] eqn:Hs; [|done].
    injection Hrun as <- <-.
    destruct (stripLinks_fixpoint _ _ _ Hs) as [? ?].
    apply stripLinks_length in Hs. split_and!; [done|done|lia].
Qed.

(** X13: a text with no attribution marker and no t.co link is its own
    canonical text: nothing is trimmed. *)
Theorem X13_getOriginalText_plain (text : string) :
  Contains text retweetTextTag = false →
  Contains text tweetTCOHTTPTag = false →
  Contains text tweetTCOHTTPSTag = false →
  getOriginalText text = Some (text, None).
Proof.
  intros Htag Hc1 Hc2. rewrite getOriginalText_eq, Htag.
  by rewrite stripLinks_clean.
Qed.

Lemma X13_getOriginalText_plain_witness :
  getOriginalText rawtweet = Some (rawtweet, None).
Proof. apply X13_getOriginalText_plain; reflexivity. Defined.

(** X14: a text wrapped as a retweet has the canonical text of the text
    wrapped, when this one is not itself a retweet: the attribution, which
    holds the marker and ends at the first [": "], is dropped with its
    separator. *)
Theorem X14_getOriginalText_unwraps (attribution body : string) :
  Contains attribution retweetTextTag = true →
  Contains attribution retweetTextIndex = false →
  Contains body retweetTextTag = false →
  getOriginalText (attribution +:+ retweetTextIndex +:+ body) = getOriginalText body.
Proof.
  intros Htag Hsep Hbody. rewrite !getOriginalText_eq.
  rewrite (Contains_app_l _ _ _ Htag), Hbody.
  by rewrite (cut_retweetTextIndex_app _ _ Hsep).
Qed.

Lemma X14_getOriginalText_unwraps_witness :
  getOriginalText retweet1 = getOriginalText tweet1.
Proof. apply (X14_getOriginalText_unwraps "RT @twitandrewking" tweet1); reflexivity. Defined.

(** ** Further properties of the duplicate filter *)

(** On a batch of pairwise distinct fingerprints, none of them seen, the
    loop of [removeDuplicates] keeps everything. *)
Lemma removeDuplicates_loop_distinct (debug : bool) (current : list Tweet)
    (temp : gset string) (stripped : list Tweet) (log : list string) :
  NoDup (fingerprint <$> current) →
  (∀ t, t ∈ current → fingerprint t ∉ temp) →
  ∃ log', removeDuplicates_loop debug current temp stripped log
          = Some (stripped ++ current, log').
Proof.
  revert temp stripped log.
  induction current as [|tweet current IH]; intros temp stripped log Hnodup Hfresh.
  - eexists. by rewrite app_nil_r.
  - cbn [removeDuplicates_loop]. rewrite getOriginalText_fingerprint. cbn.
    rewrite fmap_cons in Hnodup. apply NoDup_cons in Hnodup as [Hhead Hnodup].
    rewrite bool_decide_eq_true_2 by (apply Hfresh; by left).
    destruct (IH ({[fingerprint tweet]} ∪ temp) (stripped ++ [tweet])
                (log ++ logError (parseError tweet)) Hnodup) as (log' & ->).
    + intros t Ht [Heq%elem_of_singleton|Hin]%elem_of_union.
      * apply Hhead, list_elem_of_fmap. by exists t.
      * apply (Hfresh t); [by right|done].
    + exists log'. by rewrite <- (assoc_L (++)).
Qed.

(** X15: what [removeDuplicates] returns it returns unchanged when given
    it again; and it keeps the whole of a batch whose fingerprints are
    pairwise distinct. *)
Theorem X15_removeDuplicates_idempotent (debug : bool) (current : list Tweet) :
  (∀ stripped log,
     removeDuplicates debug current = Some (stripped, log) →
     ∃ log', removeDuplicates debug stripped = Some (stripped, log')) ∧
  (NoDup (fingerprint <$> current) →
   ∃ log, removeDuplicates debug current = Some (current, log)).
Proof.
  split.
  - intros stripped log Hrun. unfold removeDuplicates in *.
    destruct (removeDuplicates_loop_spec debug current ∅ [] [])
      as (kept & log1 & Hrun1 & _ & _ & Hnodup & _).
    rewrite Hrun in Hrun1. injection Hrun1 as -> _.
    apply (removeDuplicates_loop_distinct debug kept ∅ [] [] Hnodup).
    intros t _. apply not_elem_of_empty.
  - intros Hnodup.
    apply (removeDuplicates_loop_distinct debug current ∅ [] [] Hnodup).
    intros t _. apply not_elem_of_empty.
Qed.

Lemma X15_removeDuplicates_idempotent_witness :
  ∃ log, removeDuplicates false
           [ {| Id := 1; Text := "RT @a" |}; {| Id := 3; Text := "hello" |} ]
         = Some ([ {| Id := 1; Text := "RT @a" |}; {| Id := 3; Text := "hello" |} ], log).
Proof.
  apply (X15_removeDuplicates_idempotent false
           [ {| Id := 1; Text := "RT @a" |}; {| Id := 3; Text := "hello" |} ]).
  vm_compute. repeat constructor; set_solver.
Defined.

(** When every candidate has its identifier or its fingerprint among those
    seen, the second loop of [takeDifference] keeps nothing. *)
Lemma takeDifference_loop_all_seen (debug : bool) (current : list Tweet)
    (addedByID : gset Z) (addedByText : gset string)
    (diff : list Tweet) (log : list string) :
  (∀ t, t ∈ current → Id t ∈ addedByID ∨ fingerprint t ∈ addedByText) →
  ∃ log', takeDifference_loop debug current addedByID addedByText diff log
          = Some (diff, log').
Proof.
  revert log. induction current as [|v current IH]; intros log Hseen; [by eexists|].
  cbn [takeDifference_loop]. case_bool_decide as HID.
  { apply IH. intros t Ht. apply Hseen. by right. }
  rewrite getOriginalText_fingerprint. cbn.
  destruct (Hseen v) as [?|Htext]; [by left|done|].
  rewrite bool_decide_eq_true_2 by done.
  apply IH. intros t Ht. apply Hseen. by right.
Qed.

(** X16: once the tweets that [takeDifference] kept are added to the
    previous ones, a second pass over the same candidates keeps none. *)
Theorem X16_takeDifference_second_pass (debug : bool)
    (previous current diff : list Tweet) (log : list string) :
  takeDifference debug previous current = Some (diff, log) →
  ∃ log', takeDifference debug (previous ++ diff) current = Some ([], log').
Proof.
  intros Hrun. unfold takeDifference in *.
  destruct (takeDifference_seen_spec previous ∅ ∅ []) as (log1 & Hseen1 & _).
  rewrite Hseen1 in Hrun. cbn in Hrun.
  destruct (takeDifference_loop_spec debug current
              (list_to_set (Id <$> previous) ∪ ∅)
              (list_to_set (fingerprint <$> previous) ∪ ∅) [] log1)
    as (kept & log' & Hloop & _ & _ & Hcover).
  rewrite Hrun in Hloop. injection Hloop as -> _.
  destruct (takeDifference_seen_spec (previous ++ kept) ∅ ∅ []) as (log2 & -> & _).
  cbn. apply takeDifference_loop_all_seen.
  intros t Ht. rewrite !fmap_app, !list_to_set_app_L.
  destruct (Hcover t Ht) as [Hin|[Hin|(t' & Ht' & [Heq|Heq])]].
  - left. set_solver.
  - right. set_solver.
  - left. rewrite <- Heq. apply elem_of_union_l, elem_of_union_r,
      elem_of_list_to_set, list_elem_of_fmap. by exists t'.
  - right. rewrite <- Heq. apply elem_of_union_l, elem_of_union_r,
      elem_of_list_to_set, list_elem_of_fmap. by exists t'.
Qed.

Lemma X16_takeDifference_second_pass_witness :
  ∃ log',
    takeDifference false
      ([ {| Id := 1; Text := "hello" |} ] ++ [ {| Id := 2; Text := "world" |} ])
      [ {| Id := 1; Text := "again" |}; {| Id := 2; Text := "world" |} ]
    = Some ([], log').
Proof.
  eapply (X16_takeDifference_second_pass false [ {| Id := 1; Text := "hello" |} ]).
  vm_compute. reflexivity.
Defined.

(** The tweets kept by the second loop of [takeDifference] have pairwise
    distinct identifiers and pairwise distinct fingerprints. *)
Lemma takeDifference_loop_distinct (debug : bool) (current : list Tweet)
    (addedByID : gset Z) (addedByText : gset string)
    (diff : list Tweet) (log : list string) :
  ∃ kept log',
    takeDifference_loop debug current addedByID addedByText diff log
      = Some (diff ++ kept, log') ∧
    (∀ t, t ∈ kept → (Id t ∉ addedByID) ∧ (fingerprint t ∉ addedByText)) ∧
    NoDup (Id <$> kept) ∧
    NoDup (fingerprint <$> kept).
Proof.
  revert addedByID addedByText diff log.
  induction current as [|v current IH]; intros addedByID addedByText diff log.
  - exists [], log. rewrite app_nil_r. cbn.
    split_and!; [done|by intros t ?%elem_of_nil|constructor|constructor].
  - cbn [takeDifference_loop]. case_bool_decide as HID; [apply IH|].
    rewrite getOriginalText_fingerprint. cbn.
    case_bool_decide as Htext; [apply IH|].
    destruct (IH ({[Id v]} ∪ addedByID) ({[fingerprint v]} ∪ addedByText)
                (diff ++ [v]) (log ++ logError (parseError v)))
      as (kept & log' & -> & Hfresh & HnodupID & HnodupText).
    exists (v :: kept), log'. rewrite <- (assoc_L (++)). split; [done|].
    split_and!.
    + intros t [->|Ht]%elem_of_cons; [done|]. apply Hfresh in Ht. set_solver.
    + rewrite fmap_cons. constructor; [|done].
      intros (t & Heq & Ht)%list_elem_of_fmap. apply Hfresh in Ht. set_solver.
    + rewrite fmap_cons. constructor; [|done].
      intros (t & Heq & Ht)%list_elem_of_fmap. apply Hfresh in Ht. set_solver.
Qed.

(** X17: no two of the tweets that [takeDifference] returns have the same
    identifier or the same fingerprint. *)
Theorem X17_takeDifference_distinct (debug : bool)
    (previous current : list Tweet) :
  ∃ diff log,
    takeDifference debug previous current = Some (diff, log) ∧
    NoDup (Id <$> diff) ∧
    NoDup (fingerprint <$> diff).
Proof.
  unfold takeDifference.
  destruct (takeDifference_seen_spec previous ∅ ∅ []) as (log1 & -> & _). cbn.
  destruct (takeDifference_loop_distinct debug current
              (list_to_set (Id <$> previous) ∪ ∅)
              (list_to_set (fingerprint <$> previous) ∪ ∅) [] log1)
    as (kept & log' & -> & _ & HnodupID & HnodupText).
  by exists kept, log'.
Qed.

(** ** [truncate] in plain arithmetic *)

Lemma slice_to_substring (s : string) (n : Z) :
  0 <= n <= len s → slice_to s n = Some (String.substring 0 (Z.to_nat n) s).
Proof. intros Hn. unfold slice_to. by rewrite bool_decide_eq_true_2. Qed.

(** X18: when no sum overflows, [truncate] is this cascade: with a width
    of 0, the message, cut to 136 bytes and ["..."] if it is longer than
    140; else the message, a space and the link if they fit; else, for a
    width of at most 106, the first 136 - width bytes of the message,
    ["... "] and the link; else the link alone for a width of at most 140;
    else the message, cut to 139 bytes if it is longer than 140.  The link
    is never cut. *)
Theorem X18_truncate_cascade (msg archiveURL : string) (urlMaxLength : Z) :
  GoInt.min_int <= urlMaxLength →
  len msg + 4 + Z.max 0 urlMaxLength <= GoInt.max_int →
  truncate msg archiveURL urlMaxLength =
  Some (if bool_decide (urlMaxLength = 0) then
          if bool_decide (len msg <= 140) then msg
          else String.substring 0 136 msg +:+ "..."
        else if bool_decide (len msg + 1 + urlMaxLength <= 140) then
          msg +:+ " " +:+ archiveURL
        else if bool_decide (urlMaxLength <= 106) then
          String.substring 0 (Z.to_nat (136 - urlMaxLength)) msg +:+ "... " +:+ archiveURL
        else if bool_decide (urlMaxLength <= 140) then archiveURL
        else if bool_decide (len msg <= 140) then msg
        else String.substring 0 139 msg).
Proof.
  intros Hu Hmsg. pose proof (len_nonneg msg).
  truncate_cases; repeat case_bool_decide; try done; try (exfalso; int_lia).
  - change (GoInt.sub 140 4) with 136. rewrite (slice_to_substring msg) by lia. done.
  - replace (GoInt.sub (len msg)
      (GoInt.sub (GoInt.add (GoInt.add (len msg) 4) urlMaxLength) 140))
      with (136 - urlMaxLength) by int_lia.
    rewrite (slice_to_substring msg) by int_lia. done.
  - change (GoInt.sub 140 1) with 139. rewrite (slice_to_substring msg) by lia. done.
Qed.

Lemma X18_truncate_cascade_witness :
  truncate "test sentence with at least 30 characters"
    "test_url_long_enough________________________________________________________________________________"
    100
  = Some ("test sentence with at least 30 chara... "
          +:+ "test_url_long_enough________________________________________________________________________________").
Proof.
  rewrite (X18_truncate_cascade _ _ 100); [reflexivity|vm_compute; discriminate..].
Defined.

(** ** [tryPostTweet] *)

Ltac psimpl :=
  unfold PostTweet, printPost, truncated in *;
  unfold mbind, P_bind, mret, P_ret in *;
  cbn in *.

(** X19: when the first post is refused because the status is over 140
    characters (an API error whose first code says so), [tryPostTweet]
    posts a second time, the link being given its literal length as width:
    the second status is at most 140 bytes long, its answer is what the
    caller gets, and there is no third post. *)
Theorem X19_tryPostTweet_retry (over140 : Z)
    (postResult : list postEvent → string → Tweet * option clientError)
    (debugMode : bool) (msg archiveURL : string) (v : list (string * string))
    (h : list postEvent) (first : string) (tweet : Tweet) (apiErr : ApiError)
    (codes : list Z) :
  len msg + 4 + Z.max 24 (len archiveURL) <= GoInt.max_int →
  truncate msg archiveURL tcoLinksMaxLength = Some first →
  postResult h first = (tweet, Some (ApiErr (Some apiErr))) →
  ErrorCodes apiErr = over140 :: codes →
  ∃ second h1,
    truncate msg archiveURL (len archiveURL) = Some second ∧
    len second <= 140 ∧
    h1 = h ++ EvPostTweet first v
           :: (if debugMode then [EvPostLog (ErrorText apiErr)] else []) ∧
    tryPostTweet over140 postResult debugMode msg archiveURL v h
    = (Done (postResult h1 second), h1 ++ [EvPostTweet second v]).
Proof.
  intros Hlen Hfirst Hpost Hcodes.
  pose proof (len_nonneg msg). pose proof (len_nonneg archiveURL).
  destruct (truncate_returns msg archiveURL (len archiveURL)) as [second Hsecond];
    [int_lia|int_lia|].
  pose proof (truncate_length msg archiveURL (len archiveURL) second) as Hbound.
  eexists second, _. split; [done|]. split.
  { unfold tweetTextMaxSize in Hbound.
    assert (len second <= 140 + Z.max 0 (len archiveURL - len archiveURL)); [|lia].
    apply Hbound; [int_lia|lia|done]. }
  split; [done|].
  unfold tryPostTweet. rewrite Hfirst, Hsecond. psimpl. rewrite Hpost.
  unfold isStatusOver140CharactersError. rewrite Hcodes.
  rewrite bool_decide_eq_true_2 by done. psimpl.
  destruct debugMode; cbn.
  - rewrite <- (assoc_L (++)). cbn.
    by destruct (postResult _ second) as [tweet2 [err2|]].
  - by destruct (postResult _ second) as [tweet2 [err2|]].
Qed.

(** X20: in every other case [tryPostTweet] posts once, the link being
    given the width of a t.co link: the caller gets the answer of that
    post, success or error, except that an error which is not an API error
    makes the type assertion panic. *)
Theorem X20_tryPostTweet_once (over140 : Z)
    (postResult : list postEvent → string → Tweet * option clientError)
    (debugMode : bool) (msg archiveURL : string) (v : list (string * string))
    (h : list postEvent) :
  len msg + 4 + 24 <= GoInt.max_int →
  ∃ first,
    truncate msg archiveURL tcoLinksMaxLength = Some first ∧
    ∀ tweet err,
      postResult h first = (tweet, err) →
      (∀ apiErr codes, err = Some (ApiErr (Some apiErr)) →
                       ErrorCodes apiErr ≠ over140 :: codes) →
      tryPostTweet over140 postResult debugMode msg archiveURL v h
      = (match err with
         | Some (OtherErr _) => Panic
         | _ => Done (tweet, err)
         end, h ++ [EvPostTweet first v]).
Proof.
  intros Hlen. pose proof (len_nonneg msg).
  destruct (truncate_returns msg archiveURL tcoLinksMaxLength) as [first Hfirst];
    [unfold tcoLinksMaxLength; int_lia|int_lia|].
  exists first. split; [done|]. intros tweet err Hpost Hother.
  unfold tryPostTweet. rewrite Hfirst. psimpl. rewrite Hpost.
  destruct err as [[[apiErr|]|message]|]; try done.
  unfold isStatusOver140CharactersError.
  destruct (ErrorCodes apiErr) as [|code codes] eqn:Hcodes; [done|].
  case_bool_decide as Hcode; [|done].
  subst code. by destruct (Hother apiErr codes).
Qed.

Lemma X19_tryPostTweet_retry_witness :
  ∃ second h1,
    truncate "test" url140 (len url140) = Some second ∧
    len second <= 140 ∧
    h1 = [] ++ EvPostTweet ("test " +:+ url140) []
           :: (if false then [EvPostLog "status is over 140 characters"] else []) ∧
    tryPostTweet 186
      (λ h _, match h with
              | [] => ({| Id := 0; Text := "" |},
                       Some (ApiErr (Some {| ErrorCodes := [186];
                                             ErrorText := "status is over 140 characters" |})))
              | _ => ({| Id := 1; Text := url140 |}, None)
              end)
      false "test" url140 [] []
    = (Done ({| Id := 1; Text := url140 |}, None), h1 ++ [EvPostTweet second []]).
Proof.
  destruct (X19_tryPostTweet_retry 186
    (λ h _, match h with
            | [] => ({| Id := 0; Text := "" |},
                     Some (ApiErr (Some {| ErrorCodes := [186];
                                           ErrorText := "status is over 140 characters" |})))
            | _ => ({| Id := 1; Text := url140 |}, None)
            end)
    false "test" url140 [] [] ("test " +:+ url140) {| Id := 0; Text := "" |}
    {| ErrorCodes := [186]; ErrorText := "status is over 140 characters" |} [])
    as (second & h1 & Hsecond & Hlen & Hh1 & Hrun);
    [vm_compute; discriminate|reflexivity|reflexivity|reflexivity|].
  exists second, h1. split; [done|]. split; [done|]. split; [done|].
  rewrite Hrun. by subst h1.
Defined.

Lemma X20_tryPostTweet_once_witness :
  tryPostTweet 186 (λ _ _, ({| Id := 0; Text := "" |}, Some (OtherErr "EOF")))
    false "test" "" [] []
  = (Panic, [EvPostTweet "test " []]).
Proof.
  destruct (X20_tryPostTweet_once 186
              (λ _ _, ({| Id := 0; Text := "" |}, Some (OtherErr "EOF")))
              false "test" "" [] []) as (first & Hfirst & Hrun);
    [vm_compute; discriminate|].
  vm_compute in Hfirst. injection Hfirst as <-.
  by rewrite (Hrun {| Id := 0; Text := "" |} (Some (OtherErr "EOF"))).
Defined.

(** ** [strconv.ParseInt] after [strconv.FormatInt] *)

Lemma is_nat_pretty_N_char (d : N) :
  (d < 10)%N → Ascii.is_nat (pretty_N_char d) = Some (N.to_nat d).
Proof.
  intros Hd.
  assert (d = 0 ∨ d = 1 ∨ d = 2 ∨ d = 3 ∨ d = 4 ∨ d = 5 ∨ d = 6 ∨ d = 7
          ∨ d = 8 ∨ d = 9)%N as Hcases by lia.
  by repeat (destruct Hcases as [->|Hcases]; [done|]); subst.
Qed.

(** The digits that [pretty_N_go] writes before a string are read back as
    the number written. *)
Lemma parseDigits_pretty_N_go (x : N) :
  ∃ k : N, ∀ s acc,
    parseDigits (pretty_N_go x s) acc = parseDigits s (acc * 10 ^ k + x).
Proof.
  induction (N.lt_wf_0 x) as [x _ IH].
  destruct (decide (x = 0)%N) as [->|Hx].
  { exists 0%N. intros s acc. rewrite pretty_N_go_0. f_equal. lia. }
  destruct (IH (x `div` 10)%N) as (k & Hk); [apply N.div_lt; lia|].
  exists (k + 1)%N. intros s acc.
  rewrite pretty_N_go_step by lia. rewrite Hk. cbn [parseDigits].
  rewrite is_nat_pretty_N_char by (apply N.mod_lt; lia).
  f_equal. rewrite N2Nat.id, N.pow_add_r.
  pose proof (N.div_mod x 10). lia.
Qed.

(** A positive number is written with a digit first. *)
Lemma pretty_N_go_head (x : N) (s : string) :
  (0 < x)%N →
  ∃ c rest, pretty_N_go x s = String c rest ∧ is_Some (Ascii.is_nat c).
Proof.
  revert s. induction (N.lt_wf_0 x) as [x _ IH]. intros s Hx.
  rewrite pretty_N_go_step by done.
  destruct (decide (x `div` 10 = 0)%N) as [->|Hdiv].
  - rewrite pretty_N_go_0. eexists _, _. split; [done|].
    rewrite is_nat_pretty_N_char by (apply N.mod_lt; lia). done.
  - apply IH; [apply N.div_lt; lia|by apply N.neq_0_lt_0].
Qed.

Lemma ParseInt_digits (c : Ascii.ascii) (rest : string) (un : N) :
  is_Some (Ascii.is_nat c) →
  parseDigits (String c rest) 0 = Some un →
  GoInt.in_range (Z.of_N un) →
  ParseInt (String c rest) = Some (Z.of_N un).
Proof.
  intros [d Hd] Hparse Hrange. unfold ParseInt.
  assert (Ascii.eqb c "+"%char = false) as ->.
  { apply Ascii.eqb_neq. by intros ->. }
  assert (Ascii.eqb c "-"%char = false) as ->.
  { apply Ascii.eqb_neq. by intros ->. }
  rewrite Hparse. cbn. by rewrite bool_decide_eq_true_2.
Qed.

(** The decimal form of a 64-bit identifier is parsed back as the
    identifier. *)
Lemma ParseInt_FormatInt (id : Z) :
  GoInt.in_range id → ParseInt (FormatInt id) = Some id.
Proof.
  intros Hrange. unfold FormatInt, pretty, pretty_Z.
  destruct id as [|p|p]; [done| |].
  - unfold pretty, pretty_positive, pretty, pretty_N.
    rewrite decide_False by done.
    destruct (pretty_N_go_head (N.pos p) "") as (c & rest & Heq & Hc); [lia|].
    destruct (parseDigits_pretty_N_go (N.pos p)) as (k & Hk).
    specialize (Hk "" 0%N). rewrite Heq in *.
    change (Z.pos p) with (Z.of_N (N.pos p)).
    apply ParseInt_digits; [done| |done].
    rewrite Hk. cbn [parseDigits]. f_equal; lia.
  - unfold pretty, pretty_positive, pretty, pretty_N.
    rewrite decide_False by done.
    destruct (pretty_N_go_head (N.pos p) "") as (c & rest & Heq & Hc); [lia|].
    destruct (parseDigits_pretty_N_go (N.pos p)) as (k & Hk).
    specialize (Hk "" 0%N). rewrite Heq in *.
    change ("-" +:+ String c rest) with (String "-"%char (String c rest)).
    unfold ParseInt. cbn [Ascii.eqb]. cbn -[parseDigits GoInt.in_range].
    rewrite Hk. cbn [parseDigits]. cbn -[GoInt.in_range].
    replace (0 * 10 ^ k + N.pos p)%N with (N.pos p) by lia.
    cbn -[GoInt.in_range]. by rewrite bool_decide_eq_true_2.
Qed.

(** ** [getFriendToUnFollow] *)

(** The loop of [getFriendToUnFollow]: it reads the clock once for each
    entry it visits, leaves the entries that are not eligible, and stops at
    the first eligible one, whose key it parses. *)
Lemma getFriendToUnFollow_loop_spec (env : Env) (parseIntError : string → error)
    (entries : list (string * twitterUser)) (st : St) :
  ∃ visited,
    (∀ i key user, (i < visited)%nat → entries !! i = Some (key, user) →
       ¬ eligibleAt env (trace st ++ replicate i EvNow) user) ∧
    match entries !! visited with
    | None =>
        visited = length entries ∧
        getFriendToUnFollow_loop env parseIntError entries st
        = (Done (0, false),
           {| bot := bot st; trace := trace st ++ replicate visited EvNow |})
    | Some (key, user) =>
        eligibleAt env (trace st ++ replicate visited EvNow) user ∧
        getFriendToUnFollow_loop env parseIntError entries st
        = match ParseInt key with
          | Some id =>
              (Done (id, true),
               {| bot := bot st; trace := trace st ++ replicate (S visited) EvNow |})
          | None =>
              (Fatal (parseIntError key),
               {| bot := bot st;
                  trace := (trace st ++ replicate (S visited) EvNow)
                           ++ [EvLog (parseIntError key)] |})
          end
    end.
Proof.
  revert st. induction entries as [|[key user] entries IH]; intros st.
  - exists 0%nat. split; [intros; lia|]. cbn. rewrite app_nil_r. by destruct st.
  - cbn [getFriendToUnFollow_loop]. msimpl.
    destruct (bool_decide (GoInt.sub (nowUnixNano env (trace st)) (Timestamp user)
                           < oneDayInNano) || negb (Follow user)) eqn:Hskip.
    + assert (Hshift : ∀ i, (trace st ++ [EvNow]) ++ replicate i EvNow
                            = trace st ++ replicate (S i) EvNow).
      { intros i. by rewrite <- (assoc_L (++)). }
      destruct (IH {| bot := bot st; trace := trace st ++ [EvNow] |})
        as (visited & Hbefore & Hat). cbn [bot trace] in Hbefore, Hat.
      exists (S visited). split.
      * intros [|i] key' user' Hi Hentry; cbn in Hentry.
        -- injection Hentry as <- <-. cbn. rewrite app_nil_r. intros [Hf Hage].
           apply orb_true_iff in Hskip as [Hyoung%bool_decide_eq_true|Hnf].
           ++ lia.
           ++ by rewrite Hf in Hnf.
        -- rewrite <- Hshift. apply (Hbefore i key' user'); [lia|done].
      * change ((key, user) :: entries) with ([(key, user)] ++ entries).
        rewrite lookup_app_r by (cbn; lia). cbn [length].
        replace (S visited - 1)%nat with visited by lia.
        destruct (entries !! visited) as [[key' user']|] eqn:Hentry.
        -- rewrite !Hshift in Hat. destruct Hat as [Helig ->]. split; [done|].
           rewrite <- !(assoc_L (++) (trace st) [EvNow]). done.
        -- rewrite !Hshift in Hat. destruct Hat as [-> ->]. done.
    + exists 0%nat. split; [intros; lia|]. cbn. rewrite app_nil_r.
      apply orb_false_iff in Hskip as [Hold%bool_decide_eq_false Hf%negb_false_iff].
      split; [split; [done|lia]|]. by destruct (ParseInt key).
Qed.

Lemma getFriendToUnFollow_run (env : Env)
    (rangeOrder : list event → twitterUsers → list (string * twitterUser))
    (parseIntError : string → error) (st : St) :
  getFriendToUnFollow env rangeOrder parseIntError st
  = getFriendToUnFollow_loop env parseIntError
      (rangeOrder (trace st) (friends (bot st))) st.
Proof. done. Qed.

(** What [getFriendToUnFollow] answers, in whatever order the map is
    visited. *)
Lemma getFriendToUnFollow_cases (env : Env)
    (rangeOrder : list event → twitterUsers → list (string * twitterUser))
    (parseIntError : string → error) (st : St) :
  (∀ h m, rangeOrder h m ≡ₚ map_to_list m) →
  (∃ key user i new,
     friends (bot st) !! key = Some user ∧
     eligibleAt env (trace st ++ replicate i EvNow) user ∧
     getFriendToUnFollow env rangeOrder parseIntError st
     = (match ParseInt key with
        | Some id => Done (id, true)
        | None => Fatal (parseIntError key)
        end, {| bot := bot st; trace := trace st ++ new |})) ∨
  (∃ new,
     (∀ key user, friends (bot st) !! key = Some user →
        ∃ i, ¬ eligibleAt env (trace st ++ replicate i EvNow) user) ∧
     getFriendToUnFollow env rangeOrder parseIntError st
     = (Done (0, false), {| bot := bot st; trace := trace st ++ new |})).
Proof.
  intros Hperm. rewrite getFriendToUnFollow_run.
  destruct (getFriendToUnFollow_loop_spec env parseIntError
              (rangeOrder (trace st) (friends (bot st))) st)
    as (visited & Hbefore & Hat).
  destruct (rangeOrder (trace st) (friends (bot st)) !! visited)
    as [[key user]|] eqn:Hentry.
  - left. destruct Hat as [Helig Hrun]. exists key, user, visited.
    assert (friends (bot st) !! key = Some user) as Hkey.
    { apply elem_of_map_to_list. rewrite <- (Hperm (trace st)).
      by eapply list_elem_of_lookup_2. }
    rewrite Hrun. destruct (ParseInt key).
    + eexists. done.
    + eexists. rewrite <- (assoc_L (++)). done.
  - right. destruct Hat as [Hlen Hrun]. eexists. split; [|done].
    intros key user Hkey.
    apply elem_of_map_to_list in Hkey. rewrite <- (Hperm (trace st)) in Hkey.
    apply list_elem_of_lookup_1 in Hkey as [i Hi].
    exists i. apply (Hbefore i key user); [|done].
    apply lookup_lt_Some in Hi. lia.
Qed.

(** X21: the friend that [getFriendToUnFollow] returns is a followed
    friend, recorded at least one day before the time that was read for it,
    whose key parses as the identifier returned; the bot is not changed. *)
Theorem X21_getFriendToUnFollow_found (env : Env)
    (rangeOrder : list event → twitterUsers → list (string * twitterUser))
    (parseIntError : string → error) (st st' : St) (id : Z) :
  (∀ h m, rangeOrder h m ≡ₚ map_to_list m) →
  getFriendToUnFollow env rangeOrder parseIntError st = (Done (id, true), st') →
  bot st' = bot st ∧
  ∃ key user i,
    friends (bot st) !! key = Some user ∧
    ParseInt key = Some id ∧
    eligibleAt env (trace st ++ replicate i EvNow) user.
Proof.
  intros Hperm Hrun.
  destruct (getFriendToUnFollow_cases env rangeOrder parseIntError st Hperm)
    as [(key & user & i & new & Hkey & Helig & Hrun')|(new & _ & Hrun')];
    rewrite Hrun in Hrun'; [|done].
  destruct (ParseInt key) as [id'|] eqn:Hparse; [|done].
  injection Hrun' as -> ->. split; [done|]. by exists key, user, i.
Qed.

(** X22: when [getFriendToUnFollow] finds no friend, it returns 0, and
    every friend was, at the time read for it, either not followed or
    recorded less than one day before. *)
Theorem X22_getFriendToUnFollow_none (env : Env)
    (rangeOrder : list event → twitterUsers → list (string * twitterUser))
    (parseIntError : string → error) (st st' : St) (id : Z) :
  (∀ h m, rangeOrder h m ≡ₚ map_to_list m) →
  getFriendToUnFollow env rangeOrder parseIntError st = (Done (id, false), st') →
  id = 0 ∧ bot st' = bot st ∧
  ∀ key user, friends (bot st) !! key = Some user →
    ∃ i, ¬ eligibleAt env (trace st ++ replicate i EvNow) user.
Proof.
  intros Hperm Hrun.
  destruct (getFriendToUnFollow_cases env rangeOrder parseIntError st Hperm)
    as [(key & user & i & new & Hkey & Helig & Hrun')|(new & Hnone & Hrun')];
    rewrite Hrun in Hrun'.
  - by destruct (ParseInt key).
  - by injection Hrun' as -> ->.
Qed.

(** X23: when the keys of the friends are decimal forms of 64-bit
    identifiers, [getFriendToUnFollow] always returns, and the identifier
    it returns is one that [unfollowFriend] finds: its decimal form is the
    key of a followed friend. *)
Theorem X23_getFriendToUnFollow_decimal (env : Env)
    (rangeOrder : list event → twitterUsers → list (string * twitterUser))
    (parseIntError : string → error) (st : St) :
  (∀ h m, rangeOrder h m ≡ₚ map_to_list m) →
  decimalKeys (friends (bot st)) →
  ∃ id found st',
    getFriendToUnFollow env rangeOrder parseIntError st = (Done (id, found), st') ∧
    bot st' = bot st ∧
    (found = true →
     ∃ user, friends (bot st) !! FormatInt id = Some user ∧ Follow user = true).
Proof.
  intros Hperm Hkeys.
  destruct (getFriendToUnFollow_cases env rangeOrder parseIntError st Hperm)
    as [(key & user & i & new & Hkey & [Hf _] & ->)|(new & _ & ->)].
  - destruct (Hkeys key) as (id & Hrange & ->); [by rewrite Hkey|].
    rewrite ParseInt_FormatInt by done.
    eexists id, true, _. split; [done|]. split; [done|]. eauto.
  - eexists 0, false, _. split; [done|]. split; [done|]. done.
Qed.

(** X24: once [unfollowFriend] has returned for an identifier, with the
    keys of the friends in decimal form, [getFriendToUnFollow] does not
    return this identifier any more. *)
Theorem X24_unfollowed_not_returned (env : Env)
    (rangeOrder : list event → twitterUsers → list (string * twitterUser))
    (parseIntError : string → error) (st st1 st2 st' : St) (id id' : Z) :
  (∀ h m, rangeOrder h m ≡ₚ map_to_list m) →
  decimalKeys (friends (bot st)) →
  unfollowFriend env id st = (Done (), st1) →
  bot st2 = bot st1 →
  getFriendToUnFollow env rangeOrder parseIntError st2 = (Done (id', true), st') →
  id' ≠ id.
Proof.
  intros Hperm Hkeys Hunfollow Hbot Hrun ->.
  rewrite unfollowFriend_run in Hunfollow.
  destruct (friends (bot st) !! FormatInt id) as [user|] eqn:Hid; [|done].
  cbn zeta in Hunfollow. destruct (saveResult env _ _ _); [done|].
  injection Hunfollow as <-.
  destruct (getFriendToUnFollow_cases env rangeOrder parseIntError st2 Hperm)
    as [(key & user' & i & new & Hkey & [Hf _] & Hrun')|(new & _ & Hrun')];
    rewrite Hrun in Hrun'; [|done].
  destruct (ParseInt key) as [id'|] eqn:Hparse; [|done].
  injection Hrun' as -> _.
  rewrite Hbot in Hkey. cbn in Hkey.
  destruct (decide (key = FormatInt id')) as [->|Hne].
  - rewrite lookup_insert_eq in Hkey. by injection Hkey as <-.
  - rewrite lookup_insert_ne in Hkey by done.
    destruct (Hkeys key) as (z & Hrange & ->); [by rewrite Hkey|].
    rewrite ParseInt_FormatInt in Hparse by done. by injection Hparse as ->.
Qed.

Lemma listOrder_perm (h : list event) (m : twitterUsers) :
  listOrder h m ≡ₚ map_to_list m.
Proof. done. Qed.

Lemma st7_decimalKeys : decimalKeys (friends (bot st7)).
Proof.
  intros key [user Hkey]. cbn in Hkey.
  apply lookup_singleton_Some in Hkey as [<- _].
  exists 7. split; [|done]. vm_compute. split; discriminate.
Qed.

Lemma st78_decimalKeys : decimalKeys (friends (bot st78)).
Proof.
  intros key [user Hkey]. cbn in Hkey.
  apply lookup_insert_Some in Hkey as [[<- _]|[_ Hkey]].
  - exists 8. split; [|done]. vm_compute. split; discriminate.
  - apply lookup_singleton_Some in Hkey as [<- _].
    exists 7. split; [|done]. vm_compute. split; discriminate.
Qed.

Lemma X21_getFriendToUnFollow_found_witness :
  ∃ key user i,
    friends (bot st7) !! key = Some user ∧
    ParseInt key = Some 7 ∧
    eligibleAt twoDaysLater (trace st7 ++ replicate i EvNow) user.
Proof.
  refine (proj2 (X21_getFriendToUnFollow_found twoDaysLater listOrder (λ s, s)
                   st7 {| bot := bot st7; trace := [EvNow] |} 7 listOrder_perm _)).
  vm_compute. reflexivity.
Defined.

Lemma X22_getFriendToUnFollow_none_witness :
  getFriendToUnFollow twoDaysLater listOrder (λ s, s) stIdle
  = (Done (0, false), {| bot := bot stIdle; trace := [EvNow; EvNow] |}) ∧
  friends (bot stIdle) !! "7" = Some {| Timestamp := 0; Follow := false |} ∧
  friends (bot stIdle) !! "8" = Some {| Timestamp := oneDayInNano + 1; Follow := true |} ∧
  (∃ i, ¬ eligibleAt twoDaysLater (trace stIdle ++ replicate i EvNow)
            {| Timestamp := 0; Follow := false |}) ∧
  (∃ i, ¬ eligibleAt twoDaysLater (trace stIdle ++ replicate i EvNow)
            {| Timestamp := oneDayInNano + 1; Follow := true |}).
Proof.
  assert (Hrun : getFriendToUnFollow twoDaysLater listOrder (λ s, s) stIdle
                 = (Done (0, false), {| bot := bot stIdle; trace := [EvNow; EvNow] |}))
    by (vm_compute; reflexivity).
  destruct (X22_getFriendToUnFollow_none twoDaysLater listOrder (λ s, s)
              stIdle _ 0 listOrder_perm Hrun) as (_ & _ & Hall).
  split; [exact Hrun|].
  split; [vm_compute; reflexivity|]. split; [vm_compute; reflexivity|].
  split; [apply (Hall "7") | apply (Hall "8")]; vm_compute; reflexivity.
Defined.

Lemma X23_getFriendToUnFollow_decimal_witness :
  ∃ id found st',
    getFriendToUnFollow twoDaysLater listOrder (λ s, s) st7 = (Done (id, found), st') ∧
    bot st' = bot st7 ∧
    (found = true →
     ∃ user, friends (bot st7) !! FormatInt id = Some user ∧ Follow user = true).
Proof.
  exact (X23_getFriendToUnFollow_decimal twoDaysLater listOrder (λ s, s) st7
           listOrder_perm st7_decimalKeys).
Defined.

Lemma X24_unfollowed_not_returned_witness :
  ∃ st1 st',
    unfollowFriend twoDaysLater 7 st78 = (Done (), st1) ∧
    getFriendToUnFollow twoDaysLater listOrder (λ s, s) st1 = (Done (8, true), st') ∧
    8 ≠ 7.
Proof.
  eexists _, _. split; [vm_compute; reflexivity|]. split; [vm_compute; reflexivity|].
  eapply (X24_unfollowed_not_returned twoDaysLater listOrder (λ s, s) st78 _ _ _ 7 8
            listOrder_perm st78_decimalKeys); [| |]; [vm_compute; reflexivity|reflexivity|].
  vm_compute. reflexivity.
Defined.

(** ** [removeBanned] *)

Lemma removeBanned_loop_spec (debug : bool) (current : list Status)
    (bannedQueries : list string) (allowed : list Status) (log : list string) :
  (removeBanned_loop debug current bannedQueries allowed log).1
  = allowed ++ filter (λ t, isBanned t bannedQueries = false) current.
Proof.
  revert allowed log. induction current as [|tweet current IH]; intros allowed log.
  - cbn. by rewrite app_nil_r.
  - cbn [removeBanned_loop]. destruct (isBanned tweet bannedQueries) eqn:Hb; cbn [negb].
    + rewrite IH. by rewrite filter_cons_False by (by rewrite Hb).
    + rewrite IH, <- (assoc_L (++)). by rewrite filter_cons_True by done.
Qed.

Lemma isBanned_false (tweet : Status) (bannedQueries : list string) :
  isBanned tweet bannedQueries = false ↔
  ∀ q, q ∈ bannedQueries →
    Contains (Text (StatusTweet tweet)) q = false ∧
    Contains (Name (StatusUser tweet)) q = false.
Proof.
  unfold isBanned. induction bannedQueries as [|q' qs IH]; cbn.
  - split; [by intros _ q ?%elem_of_nil|done].
  - rewrite orb_false_iff, IH, orb_false_iff. split.
    + intros [Hq Hqs] q [->|Hin]%elem_of_cons; [done|by apply Hqs].
    + intros Hall. split; [apply Hall; by left|].
      intros q Hq. apply Hall. by right.
Qed.

(** X25: [removeBanned] keeps, in their order, exactly the tweets of which
    neither the text nor the name of the author contains a banned query. *)
Theorem X25_removeBanned_filters (debug : bool) (current : list Status)
    (bannedQueries : list string) :
  (removeBanned debug current bannedQueries).1 `sublist_of` current ∧
  ∀ t, t ∈ (removeBanned debug current bannedQueries).1 ↔
       t ∈ current ∧
       ∀ q, q ∈ bannedQueries →
         Contains (Text (StatusTweet t)) q = false ∧
         Contains (Name (StatusUser t)) q = false.
Proof.
  unfold removeBanned. rewrite removeBanned_loop_spec. cbn [app]. split.
  - apply sublist_filter.
  - intros t. rewrite list_elem_of_filter, isBanned_false. tauto.
Qed.

Lemma Contains_empty (s : string) : Contains s EmptyString = true.
Proof. unfold Contains. rewrite cut_unfold. by destruct s. Qed.

(** X26: without banned query [removeBanned] keeps every tweet; with the
    empty string among the banned queries it keeps none, for every string
    contains the empty string. *)
Theorem X26_removeBanned_edges (debug : bool) (current : list Status)
    (bannedQueries : list string) :
  (removeBanned debug current []).1 = current ∧
  (EmptyString ∈ bannedQueries → (removeBanned debug current bannedQueries).1 = []).
Proof.
  unfold removeBanned. rewrite !removeBanned_loop_spec. cbn [app]. split.
  - induction current as [|t current IH]; [done|].
    rewrite filter_cons_True by done. by rewrite IH.
  - intros Hempty. induction current as [|t current IH]; [done|].
    rewrite filter_cons_False; [done|].
    intros Hb. pose proof (proj1 (isBanned_false _ _) Hb) as Hall.
    destruct (Hall EmptyString Hempty) as [Htext _].
    by rewrite Contains_empty in Htext.
Qed.

Lemma X26_removeBanned_edges_witness :
  (removeBanned false [zeroStatus] []).1 = [zeroStatus] ∧
  (EmptyString ∈ ["nasa"; EmptyString] →
   (removeBanned false [zeroStatus] ["nasa"; EmptyString]).1 = []).
Proof. exact (X26_removeBanned_edges false [zeroStatus] ["nasa"; EmptyString]). Defined.

(** ** [like], [followUser] and [retweet] *)

Ltac rsimpl :=
  unfold Favorite, Retweet, FollowUser, rPrint, rLog, rFatal in *;
  unfold rEmit in *;
  unfold mbind, R_bind, mret, R_ret in *;
  cbn in *.

Lemma retweetCalls_app (a b : list retweetEvent) :
  retweetCalls (a ++ b) = retweetCalls a ++ retweetCalls b.
Proof. apply omap_app. Qed.

Lemma followUserCalls_app (a b : list retweetEvent) :
  followUserCalls (a ++ b) = followUserCalls a ++ followUserCalls b.
Proof. apply omap_app. Qed.

Lemma allRetweetsFailed_none (renv : RetweetEnv) (h new : list retweetEvent) :
  retweetCalls new = [] → allRetweetsFailed renv h new.
Proof.
  intros Hnone pre id post ->. rewrite retweetCalls_app in Hnone.
  by apply app_eq_nil in Hnone as [_ ?].
Qed.

Lemma allRetweetsFailed_app (renv : RetweetEnv) (h new1 new2 : list retweetEvent) :
  allRetweetsFailed renv h new1 →
  allRetweetsFailed renv (h ++ new1) new2 →
  allRetweetsFailed renv h (new1 ++ new2).
Proof.
  intros H1 H2 pre id post Heq.
  apply List.app_eq_app in Heq as (l & [[Hnew1 Heq]|[Hpre Hnew2]]).
  - destruct l as [|e l].
    + rewrite app_nil_r in Hnew1. cbn in Heq. subst new1.
      specialize (H2 [] id post (eq_sym Heq)). by rewrite app_nil_r in H2.
    + injection Heq as Hev Hpost. subst e new1. by apply (H1 pre id l).
  - subst pre. rewrite (assoc_L (++)). by apply (H2 l id post).
Qed.

Lemma allRetweetsFailed_one (renv : RetweetEnv) (h : list retweetEvent) (id : Z) :
  is_Some (retweetResult renv h id).2 →
  allRetweetsFailed renv h [EvRetweet id].
Proof.
  intros Hfail pre id' post Heq.
  destruct pre as [|e pre]; [|by destruct pre].
  injection Heq as <- _. by rewrite app_nil_r.
Qed.

(** [like] on a tweet whose count is over the threshold: one call of
    [Favorite], no recursion. *)
Lemma like_over_threshold (renv : RetweetEnv) (debugMode : bool) (likeThreshold : Z)
    (tweet : Status) (h : list retweetEvent) :
  FavoriteCount tweet > likeThreshold →
  ∃ new,
    like renv debugMode true likeThreshold tweet h = (Done (), h ++ new) ∧
    retweetCalls new = [] ∧ followUserCalls new = [].
Proof.
  intros Hover. destruct tweet as [tweet user count retweeted].
  cbn [like negb]. rewrite bool_decide_eq_true_2 by done.
  rsimpl. destruct (favoriteResult renv h (Id tweet)); [destruct debugMode|]; cbn.
  - eexists [_; _]. by rewrite <- (assoc_L (++)).
  - by eexists [_].
  - eexists [_; _]. by rewrite <- (assoc_L (++)).
Qed.

(** [like] returns, having called neither [Retweet] nor [FollowUserId]. *)
Lemma like_run (renv : RetweetEnv) (debugMode likeAuto : bool) (likeThreshold : Z)
    (tweet : Status) (h : list retweetEvent) :
  ∃ new,
    like renv debugMode likeAuto likeThreshold tweet h = (Done (), h ++ new) ∧
    retweetCalls new = [] ∧ followUserCalls new = [].
Proof.
  destruct likeAuto.
  2:{ exists []. rewrite app_nil_r. by destruct tweet. }
  destruct (decide (FavoriteCount tweet > likeThreshold)) as [Hover|Hunder].
  { by apply like_over_threshold. }
  destruct tweet as [tweet user count retweeted].
  cbn [like negb]. rewrite bool_decide_eq_false_2 by done.
  destruct retweeted as [retweeted|]; [|exists []; by rewrite app_nil_r].
  case_bool_decide; [by apply like_over_threshold|exists []; by rewrite app_nil_r].
Qed.

(** [followUser] calls [FollowUserId] once, for the user given, and
    returns, unless the error is one on which the process exits. *)
Lemma followUser_run (renv : RetweetEnv) (debugMode : bool)
    (user : User) (h : list retweetEvent) :
  ∃ new,
    (followUser renv debugMode user h).2 = h ++ new ∧
    retweetCalls new = [] ∧ followUserCalls new = [UserId user] ∧
    ((followUser renv debugMode user h).1 = Done () ∨
     ∃ line, (followUser renv debugMode user h).1 = Fatal line).
Proof.
  unfold followUser, rCheckUnableToFollowAtThisTime, rCheckBotRestriction. rsimpl.
  destruct (followUserResult renv h (UserId user)) as [followed [e|]]; cbn.
  - destruct (Contains e unableToFollowText); cbn.
    + eexists (_ :: _). rewrite <- !(assoc_L (++)). cbn. split; [done|]. eauto.
    + destruct (Contains e "Invalid or expired token"
                || Contains e "this account is temporarily locked"); cbn.
      * eexists (_ :: _). rewrite <- !(assoc_L (++)). cbn. split; [done|]. eauto.
      * destruct debugMode; cbn;
          eexists (_ :: _); rewrite <- !(assoc_L (++)); cbn; (split; [done|]); eauto.
  - eexists (_ :: _). rewrite <- !(assoc_L (++)). cbn. split; [done|]. eauto.
Qed.

(** X27: [retweet] calls [Retweet] for the candidates in their order and
    stops at the first one that succeeds, whose answer it returns with a nil
    error; it returns the error "unable to retweet", with the zero tweet,
    when every candidate was tried and every call failed.  The author of
    each candidate tried is followed, whether its retweet succeeded or not.
    The only other way out is the exit of the process on a follow that is
    refused for a revoked token or a locked account. *)
Theorem X27_retweet_first_success (renv : RetweetEnv)
    (debugMode likeAuto : bool) (likeThreshold : Z) (retweetLike : bool)
    (current : list Status) (h : list retweetEvent) :
  ∃ new,
    (retweet renv debugMode likeAuto likeThreshold retweetLike current h).2 = h ++ new ∧
    match (retweet renv debugMode likeAuto likeThreshold retweetLike current h).1 with
    | Done (rt, None) =>
        ∃ tried tweet rest pre post,
          current = tried ++ tweet :: rest ∧
          new = pre ++ EvRetweet (Id (StatusTweet tweet)) :: post ∧
          retweetResult renv (h ++ pre) (Id (StatusTweet tweet)) = (rt, None) ∧
          retweetCalls pre = (Id ∘ StatusTweet) <$> tried ∧
          allRetweetsFailed renv h pre ∧
          retweetCalls post = [] ∧
          followUserCalls new = (UserId ∘ StatusUser) <$> (tried ++ [tweet])
    | Done (rt, Some e) =>
        rt = zeroStatus ∧ e = "unable to retweet" ∧
        retweetCalls new = (Id ∘ StatusTweet) <$> current ∧
        allRetweetsFailed renv h new ∧
        followUserCalls new = (UserId ∘ StatusUser) <$> current
    | Fatal line =>
        retweetCalls new `prefix_of` (Id ∘ StatusTweet) <$> current
    | Panic => False
    end.
Proof.
  revert h. induction current as [|tweet current IH]; intros h.
  { exists []. rewrite app_nil_r. cbn. split; [done|].
    split_and!; try done. by apply allRetweetsFailed_none. }
  destruct (retweet renv debugMode likeAuto likeThreshold retweetLike (tweet :: current) h)
    as [out hfin] eqn:Hrun.
  cbn [retweet] in Hrun. cbn [fst snd].
  (* the like before the retweet *)
  assert (∃ liked,
    (if retweetLike then like renv debugMode likeAuto likeThreshold tweet
     else mret () : R ()) h = (Done (), h ++ liked) ∧
    retweetCalls liked = [] ∧ followUserCalls liked = [])
    as (liked & Hliked & HlikedR & HlikedF).
  { destruct retweetLike; [apply like_run|]. exists []. by rewrite app_nil_r. }
  unfold mbind at 1, R_bind at 1 in Hrun. rewrite Hliked in Hrun.
  unfold mbind at 1, R_bind at 1 in Hrun. unfold Retweet at 1 in Hrun.
  set (h1 := (h ++ liked) ++ [EvRetweet (Id (StatusTweet tweet))]) in Hrun.
  destruct (retweetResult renv (h ++ liked) (Id (StatusTweet tweet)))
    as [retweeted [e|]] eqn:Hanswer.
  - (* the retweet failed: the author is followed, the flow goes on *)
    unfold mbind at 1, R_bind at 1 in Hrun.
    assert (∃ printed, rPrint debugMode
              ("[twitter] failed to retweet tweet (id:"
               +:+ pretty (Id (StatusTweet tweet)) +:+ "), error: " +:+ e +:+ newline) h1
            = (Done (), h1 ++ printed) ∧
            retweetCalls printed = [] ∧ followUserCalls printed = [])
      as (printed & Hprinted & HprintedR & HprintedF).
    { unfold rPrint, rLog, rEmit. destruct debugMode; [by eexists [_]|].
      exists []. by rewrite app_nil_r. }
    rewrite Hprinted in Hrun.
    unfold mbind at 1, R_bind at 1 in Hrun.
    destruct (followUser_run renv debugMode (StatusUser tweet) (h1 ++ printed))
      as (followed & Hfollowed & HfollowedR & HfollowedF & Hout).
    destruct (followUser renv debugMode (StatusUser tweet) (h1 ++ printed))
      as [fout h2]. cbn in Hfollowed, Hout. subst h2.
    assert (Hfirst : allRetweetsFailed renv h
              (liked ++ [EvRetweet (Id (StatusTweet tweet))] ++ printed ++ followed)).
    { apply allRetweetsFailed_app; [by apply allRetweetsFailed_none|].
      apply allRetweetsFailed_app.
      - apply allRetweetsFailed_one. by rewrite Hanswer.
      - apply allRetweetsFailed_none. by rewrite retweetCalls_app, HprintedR, HfollowedR. }
    assert (Hh : (h1 ++ printed) ++ followed
                 = h ++ liked ++ [EvRetweet (Id (StatusTweet tweet))] ++ printed ++ followed).
    { subst h1. by rewrite <- !(assoc_L (++)). }
    destruct Hout as [->|[line ->]].
    + destruct (IH ((h1 ++ printed) ++ followed)) as (new & Hnew & Hcases).
      rewrite Hrun in Hnew, Hcases. cbn [fst snd] in Hnew, Hcases. subst hfin.
      exists (liked ++ [EvRetweet (Id (StatusTweet tweet))] ++ printed ++ followed ++ new).
      split; [rewrite Hh; by rewrite <- !(assoc_L (++))|].
      destruct out as [[rt [e'|]]|line|].
      * destruct Hcases as (-> & -> & HnewR & HnewA & HnewF).
        split_and!; try done.
        -- rewrite !retweetCalls_app, HlikedR, HprintedR, HfollowedR, HnewR. done.
        -- rewrite !(assoc_L (++)). apply allRetweetsFailed_app.
           ++ by rewrite <- !(assoc_L (++)).
           ++ rewrite <- !(assoc_L (++)). by rewrite <- Hh.
        -- rewrite !followUserCalls_app, HlikedF, HprintedF, HfollowedF, HnewF. done.
      * destruct Hcases as (tried & tweet' & rest & pre & post & -> & -> & Hans
                            & HpreR & HpreA & HpostR & HnewF).
        exists (tweet :: tried), tweet', rest,
          (liked ++ [EvRetweet (Id (StatusTweet tweet))] ++ printed ++ followed ++ pre),
          post.
        split_and!.
        -- done.
        -- by rewrite <- !(assoc_L (++)).
        -- rewrite <- Hans. f_equal. rewrite Hh. by rewrite <- !(assoc_L (++)).
        -- rewrite !retweetCalls_app, HlikedR, HprintedR, HfollowedR, HpreR. done.
        -- rewrite !(assoc_L (++)). apply allRetweetsFailed_app.
           ++ by rewrite <- !(assoc_L (++)).
           ++ rewrite <- !(assoc_L (++)). by rewrite <- Hh.
        -- done.
        -- do 4 rewrite followUserCalls_app.
           rewrite HlikedF, HprintedF, HfollowedF, HnewF. done.
      * rewrite !retweetCalls_app, HlikedR, HprintedR, HfollowedR. cbn.
        by apply prefix_cons.
      * done.
    + injection Hrun as <- <-.
      exists (liked ++ [EvRetweet (Id (StatusTweet tweet))] ++ printed ++ followed).
      split; [by rewrite Hh|].
      rewrite !retweetCalls_app, HlikedR, HprintedR, HfollowedR. cbn.
      apply prefix_cons, prefix_nil.
  - (* the retweet succeeded: like, log, follow the author, return *)
    unfold mbind at 1, R_bind at 1 in Hrun.
    assert (∃ liked2,
      (if retweetLike then like renv debugMode likeAuto likeThreshold retweeted
       else mret () : R ()) h1 = (Done (), h1 ++ liked2) ∧
      retweetCalls liked2 = [] ∧ followUserCalls liked2 = [])
      as (liked2 & Hliked2 & Hliked2R & Hliked2F).
    { destruct retweetLike; [apply like_run|]. exists []. by rewrite app_nil_r. }
    rewrite Hliked2 in Hrun.
    unfold mbind at 1, R_bind at 1 in Hrun. unfold rLog at 1, rEmit at 1 in Hrun.
    unfold mbind at 1, R_bind at 1 in Hrun.
    set (logged := EvRetweetLog _) in Hrun.
    destruct (followUser_run renv debugMode (StatusUser tweet) ((h1 ++ liked2) ++ [logged]))
      as (followed & Hfollowed & HfollowedR & HfollowedF & Hout).
    destruct (followUser renv debugMode (StatusUser tweet) ((h1 ++ liked2) ++ [logged]))
      as [fout h2]. cbn in Hfollowed, Hout. subst h2.
    exists (liked ++ [EvRetweet (Id (StatusTweet tweet))] ++ liked2 ++ [logged] ++ followed).
    destruct Hout as [->|[line ->]]; injection Hrun as <- <-.
    + split; [subst h1; by rewrite <- !(assoc_L (++))|].
      exists [], tweet, current, liked, (liked2 ++ [logged] ++ followed).
      split_and!; try done.
      * by apply allRetweetsFailed_none.
      * rewrite !retweetCalls_app, Hliked2R, HfollowedR. done.
      * rewrite !followUserCalls_app, HlikedF, Hliked2F, HfollowedF. done.
    + split; [subst h1; by rewrite <- !(assoc_L (++))|].
      rewrite !retweetCalls_app, HlikedR, Hliked2R, HfollowedR. cbn.
      apply prefix_cons, prefix_nil.
Qed.
